(** * Service-charge benchmark: the core of [app.py]

    A shallow embedding of the benchmarking engine of [app.py]: the postal
    locator ([parse_district], [derive_sector_from_postcode]), the
    aggregator ([safe_median], [safe_count], [compute_stats]), the trend
    builder ([compute_trend_by_year], [add_yoy]), the classifier
    ([verdict]), the forecaster ([forecast_rows]) and the part of the
    [search] handler that composes them.

    Conventions.
    - A Python [float] is a binary64 value: Rocq's primitive [float], with
      the IEEE operations and comparisons the interpreter uses.  [None] is
      [None] of an [option].
    - A Python [str] is a [list ascii]; the model covers ASCII text, which
      is what a postcode is made of.
    - A pandas numeric column is a list of floats in which NaN marks a cell
      that is missing or that [to_numeric(errors="coerce")] could not read.
      A year is an integer, and a year that is NaN is [None].
    - The data frame is a list of rows; the module-level frame [df] is an
      explicit argument of the functions that read it. *)

From Stdlib Require Import PrimFloat FloatOps FloatAxioms SpecFloat Ascii String ZArith List Bool Lia.
From Stdlib Require Import Sorted Permutation.
From stdpp Require Import gmap sorting.

Local Open Scope bool_scope.
Local Open Scope list_scope.

(* The decimal settings of the source are not binary64 values: each stands
   for the nearest one, as in Python. *)
Set Warnings "-inexact-float".

(** ** Text *)

Definition str := list ascii.

(** A string literal of the source. *)
Definition txt (s : string) : str := list_ascii_of_string s.

Definition code (c : ascii) : N := N_of_ascii c.

Definition between (lo hi : N) (c : ascii) : bool :=
  (lo <=? code c)%N && (code c <=? hi)%N.

(** [str.isspace] on ASCII, which is also what [\s] matches in a [str]
    pattern: TAB, LF, VT, FF, CR, the separators 0x1C-0x1F and the space. *)
Definition is_space (c : ascii) : bool :=
  between 9 13 c || between 28 32 c.

(** [\d] *)
Definition is_digit (c : ascii) : bool := between 48 57 c.

(** [[A-Z]] *)
Definition is_upper (c : ascii) : bool := between 65 90 c.

Definition is_lower (c : ascii) : bool := between 97 122 c.

(** [[A-Z]] under [re.I] *)
Definition is_letter (c : ascii) : bool := is_upper c || is_lower c.

(** [\w]: what [\b] looks at on both of its sides. *)
Definition is_word (c : ascii) : bool :=
  is_letter c || is_digit c || (code c =? 95)%N.

Definition upper_char (c : ascii) : ascii :=
  if is_lower c then ascii_of_N (code c - 32) else c.

Fixpoint drop_while (p : ascii -> bool) (s : str) : str :=
  match s with
  | [] => []
  | c :: s' => if p c then drop_while p s' else s
  end.

Fixpoint take_while (p : ascii -> bool) (s : str) : str :=
  match s with
  | [] => []
  | c :: s' => if p c then c :: take_while p s' else []
  end.

(** [s.strip()] *)
Definition strip (s : str) : str :=
  rev (drop_while is_space (rev (drop_while is_space s))).

(** [s.upper()] *)
Definition upper (s : str) : str := map upper_char s.

Definition space : ascii := " "%char.

Definition is_sp (c : ascii) : bool := (code c =? 32)%N.

(** [s.replace("  ", " ")]: the occurrences of two spaces are found from
    the left and do not overlap. *)
Fixpoint replace_2sp (s : str) : str :=
  match s with
  | [] => []
  | a :: r =>
      match r with
      | b :: r' =>
          if is_sp a && is_sp b then space :: replace_2sp r'
          else a :: replace_2sp r
      | [] => [a]
      end
  end.

(** [postcode.strip().upper().replace("  ", " ")], the first line of both
    [parse_district] and [derive_sector_from_postcode]. *)
Definition normalize (postcode : str) : str :=
  replace_2sp (upper (strip postcode)).

(** ** Regular expressions

    The two patterns of the source are sequences of quantified character
    classes with anchors, [\b] and one group; [exec] is a backtracking
    matcher for such sequences, greedy as [re] is. *)

Module Regex.

Inductive node : Type :=
| Bol                                            (* ^ *)
| Eol                                            (* $ *)
| WordB                                          (* \b *)
| Open                                           (* ( *)
| Close                                          (* ) *)
| Rep (cls : ascii -> bool) (lo : nat) (hi : option nat). (* cls{lo,hi} *)

(** The matcher's position: the character before it (none at the
    start of the text), the text left, and the group. *)
Record mstate : Type := MState {
  prev : option ascii;
  rest : str;
  capturing : bool;
  cap : str                              (* group 1, last character first *)
}.

Definition start (before : option ascii) (s : str) : mstate :=
  MState before s false [].

Definition group1 (m : mstate) : str := rev (cap m).

Definition word_opt (c : option ascii) : bool :=
  match c with Some c => is_word c | None => false end.

Definition at_boundary (m : mstate) : bool :=
  xorb (word_opt (prev m)) (word_opt (head (rest m))).

Definition at_bol (m : mstate) : bool :=
  match prev m with None => true | Some _ => false end.

(** [$] without [re.M]: the end of the text, or just before a final
    newline. *)
Definition at_eol (m : mstate) : bool :=
  match rest m with
  | [] => true
  | c :: [] => (code c =? 10)%N
  | _ => false
  end.

(** Consume the characters [u], leaving [v]. *)
Definition consume (u v : str) (m : mstate) : mstate :=
  MState (match rev u with c :: _ => Some c | [] => prev m end)
         v
         (capturing m)
         (if capturing m then rev u ++ cap m else cap m).

Definition advance (k : nat) (m : mstate) : mstate :=
  consume (firstn k (rest m)) (skipn k (rest m)) m.

Definition most (cls : ascii -> bool) (hi : option nat) (s : str) : nat :=
  let n := length (take_while cls s) in
  match hi with Some h => Nat.min h n | None => n end.

(** A greedy quantifier: try [k] repetitions, then [k - 1], and so on down
    to [lo], [continue k] being the rest of the match after [k] of them. *)
Fixpoint attempts (lo : nat) (continue : nat -> option mstate) (k : nat)
  : option mstate :=
  match (if (lo <=? k)%nat then continue k else None) with
  | Some r => Some r
  | None => match k with O => None | S k' => attempts lo continue k' end
  end.

Fixpoint exec (p : list node) (m : mstate) : option mstate :=
  match p with
  | [] => Some m
  | Bol :: p' => if at_bol m then exec p' m else None
  | Eol :: p' => if at_eol m then exec p' m else None
  | WordB :: p' => if at_boundary m then exec p' m else None
  | Open :: p' => exec p' (MState (prev m) (rest m) true [])
  | Close :: p' => exec p' (MState (prev m) (rest m) false (cap m))
  | Rep cls lo hi :: p' =>
      attempts lo (fun k => exec p' (advance k m)) (most cls hi (rest m))
  end.

(** [pattern.match(s)] *)
Definition re_match (p : list node) (s : str) : option mstate :=
  exec p (start None s).

(** [re.search(pattern, s)]: the leftmost position at which the pattern
    matches. *)
Fixpoint search_from (p : list node) (before : option ascii) (s : str)
  : option mstate :=
  match exec p (start before s) with
  | Some r => Some r
  | None =>
      match s with
      | [] => None
      | c :: s' => search_from p (Some c) s'
      end
  end.

Definition re_search (p : list node) (s : str) : option mstate :=
  search_from p None s.

(** What a successful run of the matcher is, without the order in which
    the matcher tries the alternatives. *)
Inductive Run : list node -> mstate -> mstate -> Prop :=
| Run_nil m : Run [] m m
| Run_bol p m m' : at_bol m = true -> Run p m m' -> Run (Bol :: p) m m'
| Run_eol p m m' : at_eol m = true -> Run p m m' -> Run (Eol :: p) m m'
| Run_wordb p m m' :
    at_boundary m = true -> Run p m m' -> Run (WordB :: p) m m'
| Run_open p m m' :
    Run p (MState (prev m) (rest m) true []) m' -> Run (Open :: p) m m'
| Run_close p m m' :
    Run p (MState (prev m) (rest m) false (cap m)) m' ->
    Run (Close :: p) m m'
| Run_rep cls lo hi p m m' u v :
    rest m = u ++ v ->
    forallb cls u = true ->
    (lo <= length u)%nat ->
    (match hi with Some h => (length u <= h)%nat | None => True end) ->
    Run p (consume u v m) m' ->
    Run (Rep cls lo hi :: p) m m'.

End Regex.

Import Regex.

(** ** Postal locator *)

(** [re.compile(r"^\s*([A-Z]{1,2}\d{1,2}[A-Z]?)\s*\d[A-Z]{2}\s*$", re.I)] *)
Definition POSTCODE_RE : list node :=
  [ Bol; Rep is_space 0 None;
    Open;
      Rep is_letter 1 (Some 2); Rep is_digit 1 (Some 2);
      Rep is_letter 0 (Some 1);
    Close;
    Rep is_space 0 None; Rep is_digit 1 (Some 1); Rep is_letter 2 (Some 2);
    Rep is_space 0 None; Eol ].

(** [r"\b(\d)[A-Z]{2}\b"], compiled without flags *)
Definition INWARD_RE : list node :=
  [ WordB; Open; Rep is_digit 1 (Some 1); Close;
    Rep is_upper 2 (Some 2); WordB ].

Definition parse_district (postcode : str) : option str :=
  let pc := normalize postcode in
  match re_match POSTCODE_RE pc with
  | None => None
  | Some m => Some (group1 m)
  end.

Definition derive_sector_from_postcode (postcode district : str)
  : option str :=
  let pc := normalize postcode in
  match re_search INWARD_RE pc with
  | None => None
  | Some inward_first_digit =>
      Some (district ++ space :: group1 inward_first_digit)
  end.

(** ** Settings *)

Definition INFLATION_RATE : float := 0.03%float.
Definition FORECAST_YEARS : nat := 5.
Definition LOW_BAND : float := 0.9%float.
Definition HIGH_BAND : float := 1.1%float.
Definition EXCLUDE_RELIABILITY : list str := [txt "LOW"].

(** ** Aggregator *)

(** [s.dropna()] *)
Definition dropna (s : list float) : list float :=
  List.filter (fun x => negb (PrimFloat.is_nan x)) s.

Fixpoint insert_sorted (x : float) (l : list float) : list float :=
  match l with
  | [] => [x]
  | y :: l' => if (x <=? y)%float then x :: l else y :: insert_sorted x l'
  end.

Definition sort_values (l : list float) : list float :=
  fold_right insert_sorted [] l.

(** [s.median()] on a column without NaN: the middle value of the sorted
    column, or the mean of the two middle values. *)
Definition median (l : list float) : float :=
  let v := sort_values l in
  let k := Nat.div (length v) 2 in
  if Nat.even (length v)
  then ((nth (k - 1) v 0 + nth k v 0) / 2)%float
  else nth k v 0%float.

Definition safe_median (s : list float) : option float :=
  let s2 := dropna s in
  match length s2 with
  | O => None
  | S _ => Some (median s2)
  end.

Definition safe_count (s : list float) : nat :=
  let s2 := dropna s in
  length s2.

(** ** Verdict classifier *)

Inductive Verdict : Type := NA | Low | Fair | High.

Definition verdict (sector_med london_med : option float) : Verdict :=
  match sector_med, london_med with
  | Some sector_med, Some london_med =>
      if (sector_med <=? london_med * LOW_BAND)%float then Low
      else if (sector_med <=? london_med * HIGH_BAND)%float then Fair
      else High
  | _, _ => NA
  end.

(** ** Forecaster *)

(** [x ** i] for a float [x] and a small non-negative [int i], as the
    product of [i] factors. *)
Fixpoint float_pow (x : float) (i : nat) : float :=
  match i with
  | O => 1%float
  | S k => (x * float_pow x k)%float
  end.

Definition forecast_year_value (base_yearly : option float) (years : nat)
  : option float :=
  match base_yearly with
  | None => None
  | Some b => Some (b * float_pow (1 + INFLATION_RATE) years)%float
  end.

Definition forecast_rows (base_yearly : option float) : list (nat * float) :=
  match base_yearly with
  | None => []
  | Some b =>
      fold_left
        (fun rows i =>
           let proj := (b * float_pow (1 + INFLATION_RATE) i)%float in
           rows ++ [(i, proj)])
        (seq 1 FORECAST_YEARS) []
  end.

(** ** Dataset store *)

Record date : Type := Date { dt_year : Z; dt_month : Z; dt_day : Z }.

(** A row of the CSV file, each numeric column as [to_numeric] with
    [errors="coerce"] reads it and the end date as [to_datetime] does. *)
Record CsvRow : Type := {
  Postcode : option str;
  Sector : option str;
  Reliability : option str;          (* None: the cell is empty *)
  Annual : float;
  Monthly : float;
  Psf : float;
  Psm : float;
  Period_End : option date;          (* None: NaT *)
  Vintage_Year : option Z            (* None: NaN *)
}.

(** A row of [df] once the columns [_rel_clean] and [_year] are added. *)
Record Row : Type := {
  csv : CsvRow;
  rel_clean : str;
  row_year : option Z
}.

(** [astype(str)] on a text column: an empty cell is NaN and prints as
    "nan". *)
Definition astype_str (cell : option str) : str :=
  match cell with
  | Some s => s
  | None => txt "nan"
  end.

Definition isna {A : Type} (x : option A) : bool :=
  match x with None => true | Some _ => false end.

(** The module-level statements that build [df] from the file. *)
Definition load (file : list CsvRow) : list Row :=
  let year := map Vintage_Year file in
  let end_year := map (fun r => option_map dt_year (Period_End r)) file in
  let year := if forallb isna year then end_year else year in
  map (fun ry : CsvRow * option Z =>
         {| csv := fst ry;
            rel_clean := upper (strip (astype_str (Reliability (fst ry))));
            row_year := snd ry |})
      (combine file year).

Definition isin (x : str) (values : list str) : bool :=
  existsb (fun v => bool_decide (x = v)) values.

Definition verified (r : Row) : bool :=
  negb (isin (rel_clean r) EXCLUDE_RELIABILITY).

Definition apply_verified_filter (g : list Row) : list Row :=
  List.filter verified g.

Definition annual (r : Row) : float := Annual (csv r).
Definition monthly (r : Row) : float := Monthly (csv r).
Definition psf (r : Row) : float := Psf (csv r).
Definition psm (r : Row) : float := Psm (csv r).

Record Stats : Type := {
  n : nat;
  median_year : option float;
  median_month : option float;
  median_psf : option float;
  median_psm : option float
}.

Definition compute_stats (g : list Row) : Stats :=
  let g2 := apply_verified_filter g in
  {| n := safe_count (map annual g2);
     median_year := safe_median (map annual g2);
     median_month := safe_median (map monthly g2);
     median_psf := safe_median (map psf g2);
     median_psm := safe_median (map psm g2) |}.

(** ** Trend builder *)

Record TrendPoint : Type := {
  tp_year : Z;
  tp_median_year : float;
  tp_n : nat
}.

(** [Series.unique()]: the distinct values in order of first appearance. *)
Definition unique (l : list Z) : list Z :=
  reverse (remove_dups (reverse l)).

(** [sorted] on integers *)
Definition sorted (l : list Z) : list Z := merge_sort Z.le l.

Definition has_year (yr : Z) (r : Row) : bool :=
  match row_year r with
  | Some y => (y =? yr)%Z
  | None => false
  end.

Definition compute_trend_by_year (g : list Row) : list TrendPoint :=
  let g2 := List.filter (fun r => negb (isna (row_year r)))
                        (apply_verified_filter g) in
  match g2 with
  | [] => []
  | _ =>
      fold_left
        (fun out yr =>
           let gy := List.filter (has_year yr) g2 in
           let med := safe_median (map annual gy) in
           let n := safe_count (map annual gy) in
           match med with
           | Some med => out ++ [ {| tp_year := yr;
                                     tp_median_year := med;
                                     tp_n := n |} ]
           | None => out
           end)
        (sorted (unique (omap row_year g2))) []
  end.

(** A trend point with the key ["yoy"] added. *)
Record TrendYoY : Type := {
  point : TrendPoint;
  yoy : option float
}.

Definition add_yoy (trend_list : list TrendPoint) : list TrendYoY :=
  snd
    (fold_left
       (fun (st : option float * list TrendYoY) row =>
          let '(prev, out) := st in
          let yoy :=
            match prev with
            | Some prev =>
                if negb (prev =? 0)%float
                then Some ((tp_median_year row - prev) / prev * 100)%float
                else None
            | None => None
            end in
          (Some (tp_median_year row), out ++ [ {| point := row; yoy := yoy |} ]))
       trend_list (None, [])).

(** ** The [search] handler *)

Inductive Error : Type :=
| EmptyInput                  (* "Enter a postcode." *)
| InvalidFormat               (* "Invalid postcode format (try e.g., E14 9AZ)." *)
| SectorDerivationFailed.     (* "Could not derive sector from postcode." *)

(** The dict comprehension [{int(r["year"]): float(r["median_year"]) for r
    in trend}]: a later point replaces an earlier one of the same year. *)
Definition trend_dict (trend : list TrendPoint) : gmap Z float :=
  fold_left (fun d r => <[ tp_year r := tp_median_year r ]> d) trend ∅.

Record Bench : Type := {
  all_years : list Z;
  bench_sector_vals : list (option float);
  bench_london_vals : list (option float)
}.

(** The chart series of the sector and of London on one year axis. *)
Definition bench (london_trend_raw sector_trend_raw : list TrendPoint)
  : Bench :=
  let london_trend := trend_dict london_trend_raw in
  let sector_trend := trend_dict sector_trend_raw in
  let all_years :=
    sorted (elements (dom london_trend ∪ dom sector_trend)) in
  {| all_years := all_years;
     bench_sector_vals := map (fun y => sector_trend !! y) all_years;
     bench_london_vals := map (fun y => london_trend !! y) all_years |}.

Record Result : Type := {
  res_postcode : str;
  res_district : str;
  res_sector : str;
  res_sector_stats : Stats;
  res_london_stats : Stats;
  res_verdict : Verdict;
  res_year5 : option float;
  res_forecast_rows : list (nat * float);
  res_trend : list TrendYoY;
  res_bench : Bench
}.

Definition is_empty (s : str) : bool :=
  match s with [] => true | _ => false end.

Definition in_sector (sector : str) (r : Row) : bool :=
  bool_decide (upper (strip (astype_str (Sector (csv r)))) = sector).

(** [search], with the query parameter [postcode] ([None] when the request
    has none) and the frame [df]; the rendering of the page is left out. *)
Definition search (df : list Row) (postcode : option str)
  : Error + Result :=
  let pc := strip (match postcode with Some s => s | None => [] end) in
  if is_empty pc then inl EmptyInput else
  match parse_district pc with
  | None => inl InvalidFormat
  | Some district =>
      if is_empty district then inl InvalidFormat else
      match derive_sector_from_postcode pc district with
      | None => inl SectorDerivationFailed
      | Some sector =>
          if is_empty sector then inl SectorDerivationFailed else
          let london_stats_raw := compute_stats df in
          let london_trend_raw := compute_trend_by_year df in
          let g_sector := List.filter (in_sector sector) df in
          let sector_stats_raw := compute_stats g_sector in
          inr {| res_postcode := pc;
                 res_district := district;
                 res_sector := sector;
                 res_sector_stats := sector_stats_raw;
                 res_london_stats := london_stats_raw;
                 res_verdict := verdict (median_year sector_stats_raw)
                                        (median_year london_stats_raw);
                 res_year5 := forecast_year_value
                                (median_year sector_stats_raw) FORECAST_YEARS;
                 res_forecast_rows :=
                   forecast_rows (median_year sector_stats_raw);
                 res_trend := add_yoy (compute_trend_by_year g_sector);
                 res_bench := bench london_trend_raw
                                    (compute_trend_by_year g_sector) |}
      end
  end.

(** ** Definitions used to state the properties *)

(** The value of ["yoy"] for a point of median [cur] that follows a point
    of median [prev]. *)
Definition yoy_after (prev cur : float) : option float :=
  if (prev =? 0)%float then None
  else Some ((cur - prev) / prev * 100)%float.

Fixpoint yoy_from (prev : option float) (l : list TrendPoint)
  : list TrendYoY :=
  match l with
  | [] => []
  | row :: l' =>
      {| point := row;
         yoy := match prev with
                | Some p => yoy_after p (tp_median_year row)
                | None => None
                end |}
      :: yoy_from (Some (tp_median_year row)) l'
  end.

Definition mk_point (y : Z) (m : float) (k : nat) : TrendPoint :=
  {| tp_year := y; tp_median_year := m; tp_n := k |}.

(** [lo <= x <= hi] on floats *)
Definition within (lo hi x : float) : bool :=
  (lo <=? x)%float && (x <=? hi)%float.

(** The four median metrics: the column and the field of the snapshot. *)
Definition stat_fields : list ((Row -> float) * (Stats -> option float)) :=
  [ (annual, median_year); (monthly, median_month);
    (psf, median_psf); (psm, median_psm) ].

Definition no_stats : Stats :=
  {| n := 0; median_year := None; median_month := None;
     median_psf := None; median_psm := None |}.

Definition mk_row (rel : str) (a m : float) (y : option Z) : Row :=
  {| csv := {| Postcode := None; Sector := None; Reliability := Some rel;
               Annual := a; Monthly := m; Psf := nan; Psm := nan;
               Period_End := None; Vintage_Year := y |};
     rel_clean := upper (strip rel);
     row_year := y |}.

(** The verified rows of [g] whose year is [y]. *)
Definition year_group (g : list Row) (y : Z) : list Row :=
  List.filter (has_year y) (apply_verified_filter g).

(** The point of year [yr] in the trend of [g2], when its median is
    defined. *)
Definition point_of (g2 : list Row) (yr : Z) : option TrendPoint :=
  match safe_median (map annual (List.filter (has_year yr) g2)) with
  | Some med =>
      Some {| tp_year := yr; tp_median_year := med;
              tp_n := safe_count (map annual (List.filter (has_year yr) g2)) |}
  | None => None
  end.

(** The median of the last point of year [y] in a trend. *)
Fixpoint value_at (trend : list TrendPoint) (y : Z) : option float :=
  match trend with
  | [] => None
  | r :: trend' =>
      match value_at trend' y with
      | Some v => Some v
      | None => if (tp_year r =? y)%Z then Some (tp_median_year r) else None
      end
  end.

(** Whether the frame takes its years from the end dates. *)
Definition uses_end_date (file : list CsvRow) : bool :=
  forallb isna (map Vintage_Year file).

(** Two rows of the same sector with the same amounts and year, both
    verified or both not. *)
Definition same_data (r r' : Row) : Prop :=
  Sector (csv r) = Sector (csv r') /\
  annual r = annual r' /\ monthly r = monthly r' /\ psf r = psf r' /\
  psm r = psm r' /\ row_year r = row_year r' /\ verified r = verified r'.

(** The record [r] with the tag [t] written into an empty reliability
    cell. *)
Definition relabel (t : str) (r : CsvRow) : CsvRow :=
  match Reliability r with
  | Some _ => r
  | None =>
      {| Postcode := Postcode r; Sector := Sector r; Reliability := Some t;
         Annual := Annual r; Monthly := Monthly r; Psf := Psf r;
         Psm := Psm r; Period_End := Period_End r;
         Vintage_Year := Vintage_Year r |}
  end.

Definition mk_csv (rel : option str) (a : float) (e : option date)
           (y : option Z) : CsvRow :=
  {| Postcode := Some (txt "E14 9AZ"); Sector := Some (txt "E14 9");
     Reliability := rel; Annual := a; Monthly := nan; Psf := nan;
     Psm := nan; Period_End := e; Vintage_Year := y |}.

(** A file in which one record has no vintage year and no reliability
    tag. *)
Definition sample_file : list CsvRow :=
  [ mk_csv None 1000 (Some (Date 2020 3 31)) None;
    mk_csv (Some (txt "High")) 1200 (Some (Date 2021 3 31)) (Some 2021%Z);
    mk_csv (Some (txt " low ")) 5000 (Some (Date 2021 3 31)) (Some 2021%Z) ].

(** An outward code: one or two letters, one or two digits and at most one
    more letter. *)
Definition Outward (d : str) : Prop :=
  exists L D O,
    d = L ++ D ++ O /\
    forallb is_letter L = true /\ (1 <= length L <= 2)%nat /\
    forallb is_digit D = true /\ (1 <= length D <= 2)%nat /\
    forallb is_letter O = true /\ (length O <= 1)%nat.

(** The text [s] read as a postcode: white space [w1], the outward code
    [d], white space [w2], the inward code [c l1 l2] and white space [w3]. *)
Definition Shape (s w1 d w2 : str) (c l1 l2 : ascii) (w3 : str) : Prop :=
  s = w1 ++ d ++ w2 ++ c :: l1 :: l2 :: w3 /\
  forallb is_space w1 = true /\ Outward d /\
  forallb is_space w2 = true /\
  is_digit c = true /\ is_letter l1 = true /\ is_letter l2 = true /\
  forallb is_space w3 = true.

Definition not_space (c : ascii) : bool := negb (is_space c).

(** The outward code of a text of that shape, read from the end: past the
    white space, the three characters of the inward code and the white
    space before them, up to the next white space. *)
Definition outward_of (s : str) : str :=
  rev (take_while not_space
         (drop_while is_space (skipn 3 (drop_while is_space (rev s))))).

(** The text [r] does not start with a character of the class [p]. *)
Definition stops (p : ascii -> bool) (r : str) : Prop :=
  match r with
  | [] => True
  | x :: _ => p x = false
  end.

(** The character before the matcher's position once it has passed the
    text [a], [b] being the one before [a]. *)
Definition after (a : str) (b : option ascii) : option ascii :=
  fold_left (fun _ x => Some x) a b.

(** The text [search] works on: the query parameter, or the empty text
    when the request has none, without the white space around it. *)
Definition query_text (postcode : option str) : str :=
  strip (match postcode with Some s => s | None => [] end).

(** ** Definitions used to state further properties *)

(** An answer of [search] without the echoed query text. *)
Definition forget_postcode (a : Error + Result) : Error + Result :=
  match a with
  | inl e => inl e
  | inr r =>
      inr {| res_postcode := [];
             res_district := res_district r;
             res_sector := res_sector r;
             res_sector_stats := res_sector_stats r;
             res_london_stats := res_london_stats r;
             res_verdict := res_verdict r;
             res_year5 := res_year5 r;
             res_forecast_rows := res_forecast_rows r;
             res_trend := res_trend r;
             res_bench := res_bench r |}
  end.

(** ** The columns of the file *)

(** The headers of the CSV file; the pound sign is held by the bytes of
    its UTF-8 form. *)
Definition c_postcode : str := txt "Postcode".
Definition c_sector : str := txt "Sector".
Definition c_reliability : str := txt "Coverage/Reliability".
Definition c_annual : str := txt "Service Charge Annual Amount (£)".
Definition c_monthly : str := txt "Service Charge Monthly Amount (£)".
Definition c_psf : str := txt "£/sqft annualised".
Definition c_psm : str := txt "£/sqm annualised".
Definition c_end : str := txt "Service Charge Period End".
Definition c_year : str := txt "Vintage Year".

Definition required_cols : list str :=
  [ c_postcode; c_sector; c_reliability;
    c_annual; c_monthly; c_psf; c_psm;
    c_end; c_year ].

(** [[c for c in required_cols if c not in df.columns]] *)
Definition missing (columns : list str) : list str :=
  List.filter (fun c => negb (isin c columns)) required_cols.

(** The [RuntimeError] raised while the module is loaded: the columns that
    are missing and the headers of the file. *)
Record SchemaError : Type := {
  err_missing : list str;
  err_headers : list str
}.

(** The check of the columns: [None] when the module goes on loading. *)
Definition check_columns (columns : list str) : option SchemaError :=
  match missing columns with
  | [] => None
  | m => Some {| err_missing := m; err_headers := columns |}
  end.



(** * Properties *)

(** ** Verdict classifier *)

Lemma verdict_cases (s r : float) :
  verdict (Some s) (Some r) =
  if (s <=? r * LOW_BAND)%float then Low
  else if (s <=? r * HIGH_BAND)%float then Fair else High.
Proof. reflexivity. Qed.

(** A float that is not NaN is below or equal to itself. *)
Lemma leb_refl_not_nan (x : float) :
  PrimFloat.is_nan x = false -> (x <=? x)%float = true.
Proof.
  unfold PrimFloat.is_nan. rewrite negb_false_iff.
  rewrite FloatAxioms.eqb_spec, FloatAxioms.leb_spec. unfold SFeqb, SFleb.
  destruct (SFcompare (Prim2SF x) (Prim2SF x)) as [[ | | ] | ];
    congruence.
Qed.

(** C1, as the code has it: a defined subject median [s] and reference
    median [r] are classified by the two tests [s <= r*0.90] and
    [s <= r*1.10] taken in this order: Low iff the first holds, Fair iff the
    first fails and the second holds, High iff both fail.  A subject exactly
    at [r*0.90] is Low and one exactly at [r*1.10] is Fair unless it already
    passes the first test; [verdict 900 1000] is Low, [verdict 901 1000] is
    Fair, [verdict 1101 1000] is High; an undefined input gives N/A. *)
Theorem verdict_bands (s r : float) :
  (verdict (Some s) (Some r) = Low <-> (s <=? r * 0.9)%float = true) /\
  (verdict (Some s) (Some r) = Fair <->
     (s <=? r * 0.9)%float = false /\ (s <=? r * 1.1)%float = true) /\
  (verdict (Some s) (Some r) = High <->
     (s <=? r * 0.9)%float = false /\ (s <=? r * 1.1)%float = false) /\
  (PrimFloat.is_nan (r * 0.9)%float = false ->
     verdict (Some (r * 0.9)%float) (Some r) = Low) /\
  (PrimFloat.is_nan (r * 1.1)%float = false ->
     verdict (Some (r * 1.1)%float) (Some r) =
     if (r * 1.1 <=? r * 0.9)%float then Low else Fair) /\
  verdict (Some 900%float) (Some 1000%float) = Low /\
  verdict (Some 901%float) (Some 1000%float) = Fair /\
  verdict (Some 1100%float) (Some 1000%float) = Fair /\
  verdict (Some 1101%float) (Some 1000%float) = High /\
  (forall x, verdict None x = NA /\ verdict x None = NA).
Proof.
  rewrite !verdict_cases. unfold LOW_BAND, HIGH_BAND.
  repeat match goal with |- _ /\ _ => split end;
    try (vm_compute; reflexivity).
  - destruct (s <=? r * 0.9)%float, (s <=? r * 1.1)%float;
      intuition congruence.
  - destruct (s <=? r * 0.9)%float, (s <=? r * 1.1)%float;
      intuition congruence.
  - destruct (s <=? r * 0.9)%float, (s <=? r * 1.1)%float;
      intuition congruence.
  - intros H. now rewrite (leb_refl_not_nan _ H).
  - intros H. rewrite (leb_refl_not_nan _ H).
    now destruct (r * 1.1 <=? r * 0.9)%float.
  - intros x. split; [reflexivity | now destruct x].
Qed.

(** C1 as stated fails for a negative reference median: with [s = r =
    -1000] the subject is above [r*1.10 = -1100], which the claim says is
    High, and it is at most [r*0.90 = -900], so the code answers Low. *)
Lemma verdict_high_counterexample :
  ((-1000) * 1.1 <? -1000)%float = true /\
  (-1000 <=? (-1000) * 0.9)%float = true /\
  verdict (Some (-1000)%float) (Some (-1000)%float) = Low /\
  verdict (Some (-1000)%float) (Some (-1000)%float) <> High.
Proof. repeat split; try (vm_compute; reflexivity). vm_compute. discriminate. Qed.

(** ** Forecaster *)

(** A loop that appends one item per element builds the mapped list. *)
Lemma fold_left_append {A B : Type} (f : A -> B) (l : list A) (acc : list B) :
  fold_left (fun rows i => rows ++ [f i]) l acc = acc ++ map f l.
Proof.
  revert acc. induction l as [ | i l IH]; intros acc; simpl.
  - now rewrite app_nil_r.
  - rewrite IH. now rewrite <- app_assoc.
Qed.

(** C5: for a defined base the forecast is the sequence of the pairs
    [(i, base * (1 + rate)^i)] for [i] from 1 to the horizon, in this
    order, with rate 0.03 and horizon 5; base 1000 gives 1030.00 at year 1
    and 1159.27 at year 5, to the cent; an undefined base gives the empty
    sequence. *)
Theorem forecast_rows_spec :
  (forall b : float,
     forecast_rows (Some b) =
     map (fun i => (i, (b * float_pow (1 + INFLATION_RATE) i)%float))
         (seq 1 FORECAST_YEARS)) /\
  forecast_rows None = [] /\
  INFLATION_RATE = 0.03%float /\ FORECAST_YEARS = 5 /\
  (forall b : float, map fst (forecast_rows (Some b)) = [1; 2; 3; 4; 5]) /\
  (exists v1 v2 v3 v4 v5 : float,
     forecast_rows (Some 1000%float) =
       [(1, v1); (2, v2); (3, v3); (4, v4); (5, v5)] /\
     within 1029.995 1030.005 v1 = true /\
     within 1159.265 1159.275 v5 = true).
Proof.
  assert (H : forall b : float,
             forecast_rows (Some b) =
             map (fun i => (i, (b * float_pow (1 + INFLATION_RATE) i)%float))
                 (seq 1 FORECAST_YEARS)).
  { intros b. unfold forecast_rows.
    exact (fold_left_append
             (fun i => (i, (b * float_pow (1 + INFLATION_RATE) i)%float))
             (seq 1 FORECAST_YEARS) []). }
  split; [exact H | ].
  do 3 (split; [reflexivity | ]).
  split.
  - intros b. rewrite H. reflexivity.
  - rewrite H. do 5 eexists. split; [reflexivity | ].
    split; vm_compute; reflexivity.
Qed.

(** ** Year-over-year change *)

Lemma add_yoy_loop (l : list TrendPoint) (prev : option float)
      (out : list TrendYoY) :
  snd (fold_left
         (fun (st : option float * list TrendYoY) row =>
            let '(prev, out) := st in
            let yoy :=
              match prev with
              | Some prev =>
                  if negb (prev =? 0)%float
                  then Some ((tp_median_year row - prev) / prev * 100)%float
                  else None
              | None => None
              end in
            (Some (tp_median_year row),
             out ++ [ {| point := row; yoy := yoy |} ]))
         l (prev, out))
  = out ++ yoy_from prev l.
Proof.
  revert prev out. induction l as [ | row l IH]; intros prev out; simpl.
  - now rewrite app_nil_r.
  - rewrite IH, <- app_assoc. simpl. do 3 f_equal.
    destruct prev as [p | ]; [ | reflexivity].
    unfold yoy_after. now destruct (p =? 0)%float.
Qed.

Lemma add_yoy_unfold (l : list TrendPoint) : add_yoy l = yoy_from None l.
Proof. unfold add_yoy. now rewrite add_yoy_loop. Qed.

Lemma yoy_from_points (l : list TrendPoint) (prev : option float) :
  map point (yoy_from prev l) = l.
Proof.
  revert prev. induction l as [ | row l IH]; intros prev; simpl;
    [reflexivity | now rewrite IH].
Qed.

Lemma yoy_from_next (l : list TrendPoint) (prev : option float) (i : nat)
      (p c : TrendPoint) :
  nth_error l i = Some p -> nth_error l (S i) = Some c ->
  nth_error (map yoy (yoy_from prev l)) (S i) =
  Some (yoy_after (tp_median_year p) (tp_median_year c)).
Proof.
  revert prev i. induction l as [ | row l IH]; intros prev i Hp Hc.
  - destruct i; discriminate.
  - destruct i as [ | i].
    + simpl in Hp. injection Hp as ->.
      destruct l as [ | row' l]; [discriminate | ].
      simpl in Hc. injection Hc as ->. reflexivity.
    + simpl in Hp. change (nth_error l (S i) = Some c) in Hc.
      simpl. exact (IH _ i Hp Hc).
Qed.

(** C4: [add_yoy] returns the same points, each with a yoy value: none
    for the first point; for a later point none when the median of the
    point just before it is zero, and otherwise (median - previous) /
    previous * 100 with the median of the point just before it.  On the
    medians 1000, 1100, 990 the values are none, 10 and -10. *)
Theorem add_yoy_spec (trend_list : list TrendPoint) :
  map point (add_yoy trend_list) = trend_list /\
  length (add_yoy trend_list) = length trend_list /\
  (forall first, nth_error (add_yoy trend_list) 0 = Some first ->
     yoy first = None) /\
  (forall i before_it it,
     nth_error trend_list i = Some before_it ->
     nth_error trend_list (S i) = Some it ->
     nth_error (map yoy (add_yoy trend_list)) (S i) =
     Some (if (tp_median_year before_it =? 0)%float then None
           else Some ((tp_median_year it - tp_median_year before_it)
                      / tp_median_year before_it * 100)%float)) /\
  (forall k1 k2 k3,
     map yoy (add_yoy [ mk_point 2021 1000 k1; mk_point 2022 1100 k2;
                        mk_point 2023 990 k3 ])
     = [None; Some 10%float; Some (-10)%float]).
Proof.
  rewrite add_yoy_unfold.
  repeat match goal with |- _ /\ _ => split end.
  - apply yoy_from_points.
  - rewrite <- (yoy_from_points trend_list None) at 2.
    now rewrite length_map.
  - intros first H. destruct trend_list; simpl in H; [discriminate | ].
    now injection H as <-.
  - intros i p c Hp Hc. exact (yoy_from_next _ _ _ _ _ Hp Hc).
  - intros k1 k2 k3. rewrite add_yoy_unfold. vm_compute. reflexivity.
Qed.

(** ** Aggregator *)

Lemma safe_median_none (s : list float) :
  safe_median s = None <-> dropna s = [].
Proof.
  unfold safe_median. destruct (dropna s); simpl; split; congruence.
Qed.

Lemma safe_count_zero (s : list float) :
  safe_count s = 0 <-> dropna s = [].
Proof.
  unfold safe_count. destruct (dropna s); simpl; split; congruence.
Qed.

(** No numeric value in a column of a frame: none in the column of its
    verified rows either. *)
Lemma dropna_verified (col : Row -> float) (g : list Row) :
  dropna (map col g) = [] -> dropna (map col (apply_verified_filter g)) = [].
Proof.
  unfold apply_verified_filter, dropna.
  induction g as [ | r g IH]; simpl; [reflexivity | ].
  destruct (negb (PrimFloat.is_nan (col r))) eqn:E; [discriminate | ].
  intros H. destruct (verified r); simpl; [rewrite E | ]; auto.
Qed.

(** C6, as the code has it: [compute_stats] is defined on every subset;
    on the empty subset the count is 0 and the four medians are undefined;
    on any subset each of the four medians is undefined, and not zero,
    exactly when its column has no numeric value among the verified rows,
    which is the case when it has none in the subset; the count is that of
    the annual column alone, so it is 0 exactly when the annual median is
    undefined. *)
Theorem compute_stats_undefined (g : list Row) :
  compute_stats [] = no_stats /\
  Forall (fun '(col, med) =>
            (dropna (map col g) = [] ->
             med (compute_stats g) = None /\
             med (compute_stats g) <> Some 0%float) /\
            (med (compute_stats g) = None <->
             dropna (map col (apply_verified_filter g)) = []))
         stat_fields /\
  n (compute_stats g) = length (dropna (map annual (apply_verified_filter g))) /\
  (n (compute_stats g) = 0 <-> median_year (compute_stats g) = None).
Proof.
  assert (Hcol : forall col,
             (dropna (map col g) = [] ->
              safe_median (map col (apply_verified_filter g)) = None /\
              safe_median (map col (apply_verified_filter g)) <> Some 0%float) /\
             (safe_median (map col (apply_verified_filter g)) = None <->
              dropna (map col (apply_verified_filter g)) = [])).
  { intros col. split; [ | apply safe_median_none].
    intros H. apply dropna_verified, safe_median_none in H.
    rewrite H. split; [reflexivity | discriminate]. }
  split; [reflexivity | ]. split.
  - unfold stat_fields.
    repeat (apply List.Forall_cons; [exact (Hcol _) | ]).
    apply List.Forall_nil.
  - split; [reflexivity | ]. simpl.
    rewrite safe_median_none. apply safe_count_zero.
Qed.

(** C6 as stated fails for a column other than the annual one: a subset
    of one verified row with an annual amount and no monthly amount has no
    numeric value in the monthly column, and its count is 1. *)
Lemma compute_stats_count_counterexample :
  dropna (map monthly [mk_row (txt "High") 1200 nan None]) = [] /\
  median_month (compute_stats [mk_row (txt "High") 1200 nan None]) = None /\
  n (compute_stats [mk_row (txt "High") 1200 nan None]) = 1.
Proof. repeat split; vm_compute; reflexivity. Qed.

(** ** Trend builder *)

Lemma fold_left_append_some {A B : Type} (f : A -> option B) (l : list A)
      (acc : list B) :
  fold_left (fun out x => match f x with Some p => out ++ [p] | None => out end)
            l acc
  = acc ++ omap f l.
Proof.
  revert acc. induction l as [ | x l IH]; intros acc; simpl.
  - now rewrite app_nil_r.
  - rewrite IH. destruct (f x); [ | reflexivity].
    now rewrite <- app_assoc.
Qed.

Lemma strictly_sorted (l : list Z) :
  StronglySorted Z.le l -> NoDup l -> StronglySorted Z.lt l.
Proof.
  induction 1 as [ | x l Hs IH Hx]; intros Hnd; constructor.
  - apply IH. now apply NoDup_cons_1_2 in Hnd.
  - apply NoDup_cons in Hnd as [Hnotin _].
    rewrite Forall_forall in *. intros y Hy.
    specialize (Hx y Hy). assert (x <> y) by (intros ->; auto). lia.
Qed.



Lemma filter_has_year_dropna (g : list Row) (y : Z) :
  List.filter (has_year y)
    (List.filter (fun r => negb (isna (row_year r))) g)
  = List.filter (has_year y) g.
Proof.
  induction g as [ | r g IH]; simpl; [reflexivity | ].
  unfold has_year at 2. destruct (row_year r) as [y' | ] eqn:E; simpl.
  - unfold has_year at 1. rewrite E, IH. reflexivity.
  - exact IH.
Qed.

Lemma omap_year_dropna (g : list Row) :
  omap row_year (List.filter (fun r => negb (isna (row_year r))) g)
  = omap row_year g.
Proof.
  induction g as [ | r g IH]; [reflexivity | ].
  cbn [List.filter]. destruct (row_year r) as [y | ] eqn:E; cbn.
  - rewrite E, IH. reflexivity.
  - rewrite E. exact IH.
Qed.

Lemma fold_left_same {A B : Type} (f f' : A -> B -> A) (l : list B) (a : A) :
  (forall a x, f a x = f' a x) -> fold_left f l a = fold_left f' l a.
Proof.
  intros H. revert a. induction l as [ | x l IH]; intros a; simpl;
    [reflexivity | now rewrite H, IH].
Qed.

(** The loop of [compute_trend_by_year], as a list comprehension over the
    sorted years. *)
Lemma compute_trend_by_year_unfold (g : list Row) :
  compute_trend_by_year g =
  omap (point_of (apply_verified_filter g))
       (sorted (unique (omap row_year (apply_verified_filter g)))).
Proof.
  unfold compute_trend_by_year.
  rewrite <- (omap_year_dropna (apply_verified_filter g)).
  set (g2 := List.filter (fun r => negb (isna (row_year r)))
                         (apply_verified_filter g)).
  assert (Hp : forall y, point_of (apply_verified_filter g) y = point_of g2 y).
  { intros y. unfold point_of. subst g2.
    now rewrite filter_has_year_dropna. }
  assert (Hm : forall l : list Z,
             omap (point_of (apply_verified_filter g)) l
             = omap (point_of g2) l).
  { induction l as [ | y l IH]; [reflexivity | ].
    cbn. now rewrite Hp, IH. }
  rewrite Hm. clear Hm Hp.
  destruct g2 as [ | r g2'] eqn:E; [reflexivity | ].
  rewrite <- E. clear E.
  rewrite <- (app_nil_l (omap (point_of g2) _)).
  rewrite <- (fold_left_append_some (point_of g2)).
  apply fold_left_same. intros out yr. unfold point_of.
  now destruct (safe_median _).
Qed.

Lemma point_of_year (g : list Row) (y : Z) (p : TrendPoint) :
  point_of g y = Some p -> tp_year p = y.
Proof.
  unfold point_of. destruct (safe_median _); [ | discriminate].
  now intros [= <-].
Qed.




(** ** Dataset store *)

Lemma combine_map_self {A B : Type} (f : A -> B) (l : list A) :
  combine l (map f l) = map (fun x => (x, f x)) l.
Proof. induction l as [ | x l IH]; simpl; [reflexivity | now rewrite IH]. Qed.

(** [load] row by row: the one branch on the whole vintage-year column
    decides where every row takes its year from. *)
Lemma load_rows (file : list CsvRow) :
  load file =
  map (fun r =>
         {| csv := r;
            rel_clean := upper (strip (astype_str (Reliability r)));
            row_year := if uses_end_date file
                        then option_map dt_year (Period_End r)
                        else Vintage_Year r |})
      file.
Proof.
  unfold load, uses_end_date.
  destruct (forallb isna (map Vintage_Year file));
    rewrite combine_map_self, map_map; reflexivity.
Qed.

Lemma uses_end_date_iff (file : list CsvRow) :
  uses_end_date file = true <->
  (forall r, In r file -> Vintage_Year r = None).
Proof.
  unfold uses_end_date. rewrite forallb_forall. split.
  - intros H r Hr. specialize (H (Vintage_Year r) (in_map _ _ _ Hr)).
    now destruct (Vintage_Year r).
  - intros H y Hy. apply in_map_iff in Hy as (r & <- & Hr).
    now rewrite (H r Hr).
Qed.

(** Rows without a year do not take part in the trend. *)
Lemma compute_trend_by_year_dropna (g : list Row) :
  compute_trend_by_year (List.filter (fun r => negb (isna (row_year r))) g)
  = compute_trend_by_year g.
Proof.
  rewrite !compute_trend_by_year_unfold.
  assert (Hc : apply_verified_filter
                 (List.filter (fun r => negb (isna (row_year r))) g)
               = List.filter (fun r => negb (isna (row_year r)))
                   (apply_verified_filter g)).
  { unfold apply_verified_filter.
    induction g as [ | r g IH]; simpl; [reflexivity | ].
    destruct (negb (isna (row_year r))) eqn:E1, (verified r) eqn:E2;
      simpl; rewrite ?E1, ?E2, IH; reflexivity. }
  rewrite Hc, omap_year_dropna.
  generalize (sorted (unique (omap row_year (apply_verified_filter g)))).
  induction l as [ | y l IH]; [reflexivity | ].
  cbn. rewrite IH. unfold point_of at 1 3.
  now rewrite filter_has_year_dropna.
Qed.

(** C8: where the years come from is decided once for the whole dataset:
    the end dates are used exactly when no record has a numeric vintage
    year, and then for every record; otherwise every record keeps its own
    vintage year, so a record whose vintage year is not numeric has no year,
    whatever its end date, and the trend is the same without it. *)
Theorem year_resolution (file : list CsvRow) :
  (uses_end_date file = true <->
   (forall r, In r file -> Vintage_Year r = None)) /\
  map csv (load file) = file /\
  (forall row, In row (load file) ->
     row_year row = if uses_end_date file
                    then option_map dt_year (Period_End (csv row))
                    else Vintage_Year (csv row)) /\
  ((exists r, In r file /\ Vintage_Year r <> None) ->
   (forall row, In row (load file) -> Vintage_Year (csv row) = None ->
      row_year row = None) /\
   compute_trend_by_year
     (List.filter (fun row => negb (isna (Vintage_Year (csv row))))
                  (load file))
   = compute_trend_by_year (load file)).
Proof.
  split; [apply uses_end_date_iff | ].
  assert (Hrow : forall row, In row (load file) ->
            row_year row = if uses_end_date file
                           then option_map dt_year (Period_End (csv row))
                           else Vintage_Year (csv row)).
  { intros row. rewrite load_rows, in_map_iff. now intros (r & <- & _). }
  split; [ | split; [exact Hrow | ]].
  - rewrite load_rows, map_map. simpl. apply map_id.
  - intros (r & Hr & Hy).
    assert (Hf : uses_end_date file = false).
    { destruct (uses_end_date file) eqn:E; [ | reflexivity].
      rewrite uses_end_date_iff in E. now specialize (E r Hr). }
    rewrite Hf in Hrow. split.
    + intros row Hin Hv. now rewrite (Hrow row Hin).
    + rewrite <- (compute_trend_by_year_dropna (load file)).
      f_equal. apply filter_ext_in. intros row Hin.
      now rewrite (Hrow row Hin).
Qed.

(** [year_resolution] on [sample_file], in which the second record has a
    vintage year and the first has only an end date. *)
Lemma year_resolution_witness :
  (forall row, In row (load sample_file) -> Vintage_Year (csv row) = None ->
     row_year row = None) /\
  compute_trend_by_year
    (List.filter (fun row => negb (isna (Vintage_Year (csv row))))
                 (load sample_file))
  = compute_trend_by_year (load sample_file).
Proof.
  apply (year_resolution sample_file).
  exists (mk_csv (Some (txt "High")) 1200 (Some (Date 2021 3 31)) (Some 2021%Z)).
  split; [simpl; auto | discriminate].
Defined.

(** ** Verified subset *)

Lemma filter_Forall2 {A : Type} (R : A -> A -> Prop) (p : A -> bool)
      (l l' : list A) :
  (forall x y, R x y -> p x = p y) ->
  Forall2 R l l' -> Forall2 R (List.filter p l) (List.filter p l').
Proof.
  intros Hp. induction 1 as [ | x y l l' Hxy _ IH]; simpl; [constructor | ].
  rewrite <- (Hp x y Hxy). destruct (p x); [constructor | ]; auto.
Qed.

Lemma map_Forall2 {A B : Type} (R : A -> A -> Prop) (f : A -> B)
      (l l' : list A) :
  (forall x y, R x y -> f x = f y) ->
  Forall2 R l l' -> map f l = map f l'.
Proof.
  intros Hf. induction 1 as [ | x y l l' Hxy _ IH]; simpl; [reflexivity | ].
  now rewrite (Hf x y Hxy), IH.
Qed.

Lemma omap_Forall2 {A B : Type} (R : A -> A -> Prop) (f : A -> option B)
      (l l' : list A) :
  (forall x y, R x y -> f x = f y) ->
  Forall2 R l l' -> omap f l = omap f l'.
Proof.
  intros Hf. induction 1 as [ | x y l l' Hxy _ IH]; cbn; [reflexivity | ].
  now rewrite (Hf x y Hxy), IH.
Qed.

Ltac same_data_field :=
  unfold same_data; intros ? ? (? & ? & ? & ? & ? & ? & ?); assumption.

(** The statistics and the trend read a row through its amounts, its year
    and whether it is verified, and through nothing else. *)
Lemma same_data_same_results (g g' : list Row) :
  Forall2 same_data g g' ->
  compute_stats g = compute_stats g' /\
  compute_trend_by_year g = compute_trend_by_year g'.
Proof.
  intros H.
  assert (Hv : Forall2 same_data (apply_verified_filter g)
                       (apply_verified_filter g')).
  { apply filter_Forall2; [same_data_field | exact H]. }
  split.
  - unfold compute_stats.
    rewrite (map_Forall2 same_data annual _ _ ltac:(same_data_field) Hv).
    rewrite (map_Forall2 same_data monthly _ _ ltac:(same_data_field) Hv).
    rewrite (map_Forall2 same_data psf _ _ ltac:(same_data_field) Hv).
    rewrite (map_Forall2 same_data psm _ _ ltac:(same_data_field) Hv).
    reflexivity.
  - rewrite !compute_trend_by_year_unfold.
    rewrite (omap_Forall2 same_data row_year _ _ ltac:(same_data_field) Hv).
    generalize (sorted (unique (omap row_year (apply_verified_filter g')))).
    induction l as [ | y l IH]; [reflexivity | ].
    cbn. rewrite IH.
    assert (Hy : Forall2 same_data
                   (List.filter (has_year y) (apply_verified_filter g))
                   (List.filter (has_year y) (apply_verified_filter g'))).
    { apply filter_Forall2; [ | exact Hv].
      unfold same_data, has_year. intros a b Hab.
      destruct Hab as (_ & _ & _ & _ & _ & -> & _). reflexivity. }
    unfold point_of.
    now rewrite (map_Forall2 same_data annual _ _ ltac:(same_data_field) Hy).
Qed.

Lemma uses_end_date_relabel (t : str) (file : list CsvRow) :
  uses_end_date (map (relabel t) file) = uses_end_date file.
Proof.
  unfold uses_end_date. rewrite map_map. f_equal. apply map_ext.
  intros r. unfold relabel. now destruct (Reliability r).
Qed.

Lemma load_relabel (t : str) (file : list CsvRow) :
  isin (upper (strip t)) EXCLUDE_RELIABILITY = false ->
  Forall2 same_data (load (map (relabel t) file)) (load file).
Proof.
  intros Ht. rewrite !load_rows, uses_end_date_relabel, map_map.
  generalize (uses_end_date file). intros b.
  induction file as [ | r file IH]; simpl; constructor; [ | exact IH].
  unfold same_data, relabel, annual, monthly, psf, psm, verified.
  destruct (Reliability r) eqn:E;
    cbn [csv rel_clean row_year Reliability Sector Annual Monthly Psf Psm
         Period_End Vintage_Year astype_str];
    rewrite ?E; repeat split.
  rewrite Ht. reflexivity.
Qed.

(** C10: a record without a reliability tag is verified: the empty cell
    reads "nan", which normalises to "NAN" and is not excluded, so the
    record stays in the verified rows; the statistics and the trend of the
    dataset, and of each of its sectors, are those of the dataset in which
    the empty cells carry any tag [t] that is not excluded. *)
Theorem missing_reliability_verified (file : list CsvRow) (t : str) :
  isin (upper (strip t)) EXCLUDE_RELIABILITY = false ->
  (forall row, In row (load file) -> Reliability (csv row) = None ->
     rel_clean row = txt "NAN" /\ verified row = true /\
     In row (apply_verified_filter (load file))) /\
  compute_stats (load (map (relabel t) file)) = compute_stats (load file) /\
  compute_trend_by_year (load (map (relabel t) file))
    = compute_trend_by_year (load file) /\
  (forall sector,
     compute_stats (List.filter (in_sector sector) (load (map (relabel t) file)))
       = compute_stats (List.filter (in_sector sector) (load file)) /\
     compute_trend_by_year
       (List.filter (in_sector sector) (load (map (relabel t) file)))
       = compute_trend_by_year (List.filter (in_sector sector) (load file))).
Proof.
  intros Ht. split.
  - intros row Hin Hrel.
    assert (Hc : rel_clean row = txt "NAN").
    { rewrite load_rows, in_map_iff in Hin. destruct Hin as (r & <- & _).
      simpl in *. now rewrite Hrel. }
    assert (Hv : verified row = true) by (unfold verified; now rewrite Hc).
    repeat split; auto. apply filter_In. auto.
  - pose proof (load_relabel t file Ht) as H.
    split; [apply same_data_same_results, H | ].
    split; [apply same_data_same_results, H | ].
    intros sector. apply same_data_same_results.
    apply filter_Forall2; [ | exact H].
    intros a b Hab. unfold in_sector.
    destruct Hab as (-> & _). reflexivity.
Qed.

(** [missing_reliability_verified] on [sample_file], whose first record
    has no tag, with the tag "High": the count is 2 either way, the record
    tagged " low " being the only one left out. *)
Lemma missing_reliability_verified_witness :
  (forall row, In row (load sample_file) -> Reliability (csv row) = None ->
     rel_clean row = txt "NAN" /\ verified row = true /\
     In row (apply_verified_filter (load sample_file))) /\
  compute_stats (load (map (relabel (txt "High")) sample_file))
    = compute_stats (load sample_file) /\
  n (compute_stats (load sample_file)) = 2.
Proof.
  pose proof (missing_reliability_verified sample_file (txt "High")
                eq_refl) as (H1 & H2 & _).
  split; [exact H1 | ]. split; [exact H2 | ]. reflexivity.
Defined.

(** ** Year alignment *)

Lemma trend_dict_loop (trend : list TrendPoint) (d : gmap Z float) (y : Z) :
  fold_left (fun d r => <[ tp_year r := tp_median_year r ]> d) trend d !! y
  = match value_at trend y with
    | Some v => Some v
    | None => d !! y
    end.
Proof.
  revert d. induction trend as [ | r trend IH]; intros d;
    cbn [fold_left value_at]; [reflexivity | ].
  rewrite IH. destruct (value_at trend y); [reflexivity | ].
  destruct (Z.eqb_spec (tp_year r) y) as [Heq | Hne].
  - subst y. apply lookup_insert_eq.
  - now apply lookup_insert_ne.
Qed.

(** Reading the dict of a trend gives the median of the last point of the
    year. *)
Lemma trend_dict_lookup (trend : list TrendPoint) (y : Z) :
  trend_dict trend !! y = value_at trend y.
Proof.
  unfold trend_dict. rewrite trend_dict_loop.
  destruct (value_at trend y); [reflexivity | apply lookup_empty].
Qed.

Lemma value_at_none (trend : list TrendPoint) (y : Z) :
  value_at trend y = None <-> ~ In y (map tp_year trend).
Proof.
  induction trend as [ | r trend IH]; simpl; [tauto | ].
  destruct (value_at trend y) as [v | ].
  - split; [discriminate | ]. intros H. exfalso. apply H. right.
    destruct (in_dec Z.eq_dec y (map tp_year trend)) as [Hin | Hout];
      [exact Hin | ]. apply IH in Hout. discriminate.
  - destruct (Z.eqb_spec (tp_year r) y) as [Heq | Hne].
    + split; [discriminate | ]. intros H. exfalso. apply H. now left.
    + split; [ | reflexivity]. intros _ [Heq | Hin]; [congruence | ].
      now apply IH in Hin.
Qed.

Lemma value_at_some (trend : list TrendPoint) (y : Z) (v : float) :
  value_at trend y = Some v ->
  exists r, In r trend /\ tp_year r = y /\ tp_median_year r = v.
Proof.
  induction trend as [ | r trend IH]; simpl; [discriminate | ].
  destruct (value_at trend y) as [w | ].
  - intros [= <-]. destruct (IH eq_refl) as (q & Hq & Hy & Hv). eauto.
  - destruct (Z.eqb_spec (tp_year r) y) as [Heq | Hne]; [ | discriminate].
    intros [= <-]. eauto.
Qed.

Lemma trend_dict_dom (trend : list TrendPoint) (y : Z) :
  y ∈ dom (trend_dict trend) <-> In y (map tp_year trend).
Proof.
  rewrite elem_of_dom, trend_dict_lookup.
  destruct (value_at trend y) as [v | ] eqn:E.
  - split; [ | eauto]. intros _.
    destruct (in_dec Z.eq_dec y (map tp_year trend)) as [Hin | Hout];
      [exact Hin | ]. apply value_at_none in Hout. congruence.
  - split; [intros [v Hv]; discriminate | ].
    intros Hin. apply value_at_none in E. contradiction.
Qed.

(** C2: the year axis of the chart is the union of the years of the two
    series in strictly ascending order; the two value sequences run along
    it, position by position: each holds the median the series has for the
    year of the position, and nothing where the series has no point of that
    year.  With sector years 2021, 2023 and London years 2021, 2022 the
    axis is 2021, 2022, 2023, the sector values are [v, none, v] and the
    London values [v, v, none]. *)
Theorem bench_spec (london sector : list TrendPoint) :
  StronglySorted Z.lt (all_years (bench london sector)) /\
  (forall y, In y (all_years (bench london sector)) <->
             In y (map tp_year london) \/ In y (map tp_year sector)) /\
  bench_sector_vals (bench london sector)
    = map (value_at sector) (all_years (bench london sector)) /\
  bench_london_vals (bench london sector)
    = map (value_at london) (all_years (bench london sector)) /\
  length (bench_sector_vals (bench london sector))
    = length (all_years (bench london sector)) /\
  length (bench_london_vals (bench london sector))
    = length (all_years (bench london sector)) /\
  (forall series y,
     (value_at series y = None <-> ~ In y (map tp_year series)) /\
     (forall v, value_at series y = Some v ->
        exists r, In r series /\ tp_year r = y /\ tp_median_year r = v)) /\
  (forall s21 s23 l21 l22 k1 k2 k3 k4,
     bench [mk_point 2021 l21 k1; mk_point 2022 l22 k2]
           [mk_point 2021 s21 k3; mk_point 2023 s23 k4]
     = {| all_years := [2021; 2022; 2023]%Z;
          bench_sector_vals := [Some s21; None; Some s23];
          bench_london_vals := [Some l21; Some l22; None] |}).
Proof.
  assert (Hs : StronglySorted Z.lt (all_years (bench london sector))).
  { unfold bench, all_years, sorted. apply strictly_sorted.
    - apply StronglySorted_merge_sort; typeclasses eauto.
    - rewrite merge_sort_Permutation. apply NoDup_elements. }
  assert (Hv : forall series, map (fun y => trend_dict series !! y)
                                  (all_years (bench london sector))
                              = map (value_at series)
                                    (all_years (bench london sector))).
  { intros series. apply map_ext. intros y. apply trend_dict_lookup. }
  split; [exact Hs | ]. split; [ | split; [ | split; [ | split; [ | split; [ | split]]]]].
  - intros y. unfold bench, all_years, sorted.
    rewrite <- list_elem_of_In, merge_sort_Permutation, elem_of_elements.
    rewrite elem_of_union, !trend_dict_dom. reflexivity.
  - exact (Hv sector).
  - exact (Hv london).
  - unfold bench; simpl. apply length_map.
  - unfold bench; simpl. apply length_map.
  - intros series y. split; [apply value_at_none | apply value_at_some].
  - intros. vm_compute. reflexivity.
Qed.

(** ** Characters *)

Ltac each_char c :=
  destruct c as [[ | ] [ | ] [ | ] [ | ] [ | ] [ | ] [ | ] [ | ]];
  vm_compute; try reflexivity; try discriminate; try tauto.

Lemma space_not_word (c : ascii) :
  is_space c = true ->
  is_word c = false /\ is_digit c = false /\ is_letter c = false /\
  upper_char c = c.
Proof. each_char c. Qed.

Lemma digit_is_word (c : ascii) :
  is_digit c = true ->
  is_word c = true /\ is_space c = false /\ is_letter c = false /\
  is_sp c = false /\ upper_char c = c.
Proof. each_char c. Qed.

Lemma letter_is_word (c : ascii) :
  is_letter c = true ->
  is_word c = true /\ is_space c = false /\ is_digit c = false /\
  is_sp c = false /\ is_letter (upper_char c) = true /\
  is_upper (upper_char c) = true.
Proof. each_char c. Qed.

Lemma upper_char_twice (c : ascii) : upper_char (upper_char c) = upper_char c.
Proof. each_char c. Qed.

Lemma sp_is_space (c : ascii) : is_sp c = true -> c = space /\ is_space c = true.
Proof. each_char c. Qed.

Lemma upper_letter (c : ascii) :
  is_letter c = true -> upper_char c = c -> is_upper c = true.
Proof. each_char c. Qed.

(** ** The matcher and its runs *)

Lemma attempts_some (lo : nat) (f : nat -> option mstate) (n : nat)
      (r : mstate) :
  attempts lo f n = Some r ->
  exists k, (lo <= k <= n)%nat /\ f k = Some r.
Proof.
  induction n as [ | n IH]; simpl.
  - destruct (lo <=? 0)%nat eqn:E.
    + destruct (f 0%nat) eqn:F; [ | discriminate].
      intros [= <-]. exists 0%nat. apply Nat.leb_le in E. split; [lia | auto].
    + discriminate.
  - destruct (lo <=? S n)%nat eqn:E.
    + destruct (f (S n)) eqn:F.
      * intros [= <-]. exists (S n). apply Nat.leb_le in E. split; [lia | auto].
      * intros H. destruct (IH H) as (k & Hk & Hf). exists k. split; [lia | auto].
    + intros H. destruct (IH H) as (k & Hk & Hf). exists k. split; [lia | auto].
Qed.

Lemma attempts_found (lo : nat) (f : nat -> option mstate) (n k : nat) :
  (lo <= k <= n)%nat -> f k <> None -> attempts lo f n <> None.
Proof.
  intros Hk Hf. induction n as [ | n IH].
  - assert (k = 0)%nat by lia. subst k. simpl.
    assert (E : (lo <=? 0)%nat = true) by (apply Nat.leb_le; lia).
    rewrite E. destruct (f 0%nat); congruence.
  - simpl. destruct (Nat.eq_dec k (S n)) as [-> | Hne].
    + assert (E : (lo <=? S n)%nat = true) by (apply Nat.leb_le; lia).
      rewrite E. destruct (f (S n)); congruence.
    + destruct (if (lo <=? S n)%nat then f (S n) else None); [discriminate | ].
      apply IH. lia.
Qed.

Lemma take_while_firstn (cls : ascii -> bool) (s : str) (k : nat) :
  (k <= length (take_while cls s))%nat ->
  forallb cls (firstn k s) = true /\ length (firstn k s) = k.
Proof.
  revert k. induction s as [ | c s IH]; intros k; simpl.
  - intros H. assert (k = 0)%nat by lia. subst. auto.
  - destruct (cls c) eqn:E; simpl; intros H.
    + destruct k as [ | k]; [auto | ]. simpl. rewrite E.
      destruct (IH k ltac:(lia)) as [H1 H2]. simpl. auto.
    + assert (k = 0)%nat by lia. subst. auto.
Qed.

Lemma take_while_app (cls : ascii -> bool) (u v : str) :
  forallb cls u = true ->
  (length u <= length (take_while cls (u ++ v)))%nat.
Proof.
  induction u as [ | c u IH]; simpl; [lia | ].
  intros H. apply andb_true_iff in H as [Hc Hu]. rewrite Hc. simpl.
  specialize (IH Hu). lia.
Qed.

Lemma most_le (cls : ascii -> bool) (hi : option nat) (s : str) (k : nat) :
  (k <= most cls hi s)%nat <->
  (k <= length (take_while cls s))%nat /\
  match hi with Some h => (k <= h)%nat | None => True end.
Proof. unfold most. destruct hi; lia. Qed.

(** What the matcher returns is a run. *)
Lemma exec_sound (p : list node) (m m' : mstate) :
  exec p m = Some m' -> Run p m m'.
Proof.
  revert m. induction p as [ | nd p IH]; intros m; simpl.
  - intros [= <-]. constructor.
  - destruct nd as [ | | | | | cls lo hi].
    + destruct (at_bol m) eqn:E; [ | discriminate]. intros H.
      constructor; auto.
    + destruct (at_eol m) eqn:E; [ | discriminate]. intros H.
      constructor; auto.
    + destruct (at_boundary m) eqn:E; [ | discriminate]. intros H.
      constructor; auto.
    + intros H. constructor; auto.
    + intros H. constructor; auto.
    + intros H. apply attempts_some in H as (k & [Hlo Hhi] & Hk).
      apply most_le in Hhi as [Htw Hh].
      destruct (take_while_firstn cls (rest m) k Htw) as [Hall Hlen].
      apply (Run_rep cls lo hi p m m' (firstn k (rest m)) (skipn k (rest m))).
      * symmetry. apply firstn_skipn.
      * exact Hall.
      * lia.
      * destruct hi; [lia | exact I].
      * apply IH. exact Hk.
Qed.

(** Where there is a run, the matcher finds one. *)
Lemma exec_complete (p : list node) (m m' : mstate) :
  Run p m m' -> exec p m <> None.
Proof.
  induction 1 as [ m | p m m' E _ IH | p m m' E _ IH | p m m' E _ IH
                   | p m m' _ IH | p m m' _ IH
                   | cls lo hi p m m' u v Hrest Hall Hlo Hhi _ IH ]; simpl;
    rewrite ?E; auto; try discriminate.
  apply (attempts_found lo _ _ (length u)).
  - split; [exact Hlo | ]. apply most_le. split.
    + rewrite Hrest. now apply take_while_app.
    + exact Hhi.
  - unfold advance. rewrite Hrest.
    rewrite firstn_app, Nat.sub_diag, firstn_all, firstn_O, app_nil_r.
    rewrite skipn_app, Nat.sub_diag, skipn_all. simpl. exact IH.
Qed.

(** ** The postcode pattern *)

Lemma Run_nil_inv (m m' : mstate) : Run [] m m' -> m' = m.
Proof. now inversion 1. Qed.

Lemma Run_bol_inv (p : list node) (m m' : mstate) :
  Run (Bol :: p) m m' -> at_bol m = true /\ Run p m m'.
Proof. now inversion 1. Qed.

Lemma Run_eol_inv (p : list node) (m m' : mstate) :
  Run (Eol :: p) m m' -> at_eol m = true /\ Run p m m'.
Proof. now inversion 1. Qed.

Lemma Run_wordb_inv (p : list node) (m m' : mstate) :
  Run (WordB :: p) m m' -> at_boundary m = true /\ Run p m m'.
Proof. now inversion 1. Qed.

Lemma Run_open_inv (p : list node) (m m' : mstate) :
  Run (Open :: p) m m' -> Run p (MState (prev m) (rest m) true []) m'.
Proof. now inversion 1. Qed.

Lemma Run_close_inv (p : list node) (m m' : mstate) :
  Run (Close :: p) m m' -> Run p (MState (prev m) (rest m) false (cap m)) m'.
Proof. now inversion 1. Qed.

Lemma Run_rep_inv (cls : ascii -> bool) (lo : nat) (hi : option nat)
      (p : list node) (m m' : mstate) :
  Run (Rep cls lo hi :: p) m m' ->
  exists u v,
    rest m = u ++ v /\ forallb cls u = true /\ (lo <= length u)%nat /\
    match hi with Some h => (length u <= h)%nat | None => True end /\
    Run p (consume u v m) m'.
Proof. inversion 1; subst. eauto 10. Qed.

Lemma length_one (u : str) :
  (1 <= length u)%nat -> (length u <= 1)%nat -> exists c, u = [c].
Proof. destruct u as [ | c [ | ]]; simpl; intros; try lia. eauto. Qed.

Lemma length_two (u : str) :
  (2 <= length u)%nat -> (length u <= 2)%nat -> exists a b, u = [a; b].
Proof. destruct u as [ | a [ | b [ | ]]]; simpl; intros; try lia. eauto. Qed.

Lemma newline_space (c : ascii) : (code c =? 10)%N = true -> is_space c = true.
Proof. each_char c. Qed.

Lemma at_eol_spaces (m : mstate) :
  at_eol m = true -> forallb is_space (rest m) = true.
Proof.
  unfold at_eol. destruct (rest m) as [ | c [ | ]]; try discriminate; simpl.
  - reflexivity.
  - intros H. now rewrite (newline_space c H).
Qed.

Ltac state_simpl := cbn [consume start prev rest capturing cap] in *.

(** A run of the postcode pattern reads the text as a postcode, and its
    group is the outward code. *)
Lemma run_postcode_shape (s : str) (m' : mstate) :
  Run POSTCODE_RE (start None s) m' ->
  exists w1 w2 c l1 l2 w3, Shape s w1 (group1 m') w2 c l1 l2 w3.
Proof.
  unfold POSTCODE_RE. intros H.
  apply Run_bol_inv in H as [_ H].
  apply Run_rep_inv in H as (w1 & v1 & E1 & Hw1 & _ & _ & H). state_simpl.
  apply Run_open_inv in H. state_simpl.
  apply Run_rep_inv in H as (L & v2 & E2 & HL & HL1 & HL2 & H). state_simpl.
  apply Run_rep_inv in H as (D & v3 & E3 & HD & HD1 & HD2 & H). state_simpl.
  apply Run_rep_inv in H as (O & v4 & E4 & HO & _ & HO2 & H). state_simpl.
  apply Run_close_inv in H. state_simpl.
  apply Run_rep_inv in H as (w2 & v5 & E5 & Hw2 & _ & _ & H). state_simpl.
  apply Run_rep_inv in H as (C & v6 & E6 & HC & HC1 & HC2 & H). state_simpl.
  apply Run_rep_inv in H as (I & v7 & E7 & HI & HI1 & HI2 & H). state_simpl.
  apply Run_rep_inv in H as (w3 & v8 & E8 & Hw3 & _ & _ & H). state_simpl.
  apply Run_eol_inv in H as [He H]. apply at_eol_spaces in He. state_simpl.
  apply Run_nil_inv in H. subst m'.
  destruct (length_one C HC1 HC2) as (c & ->).
  destruct (length_two I HI1 HI2) as (l1 & l2 & ->).
  cbn [forallb] in HC, HI. rewrite !andb_true_r in HC, HI.
  apply andb_true_iff in HI as [Hl1 Hl2].
  exists w1, w2, c, l1, l2, (w3 ++ v8).
  unfold Shape, group1. state_simpl.
  assert (Hg : rev (rev O ++ rev D ++ rev L ++ []) = L ++ D ++ O).
  { now rewrite app_nil_r, !rev_app_distr, !rev_involutive, <- !app_assoc. }
  rewrite Hg.
  split; [subst; now rewrite <- !app_assoc | ].
  split; [exact Hw1 | ]. split.
  - exists L, D, O. repeat split; auto; lia.
  - rewrite forallb_app, Hw3, He. simpl. auto.
Qed.

(** A text of the shape of a postcode has a run of the postcode pattern
    whose group is the outward code. *)
Lemma shape_run_postcode (s w1 d w2 : str) (c l1 l2 : ascii) (w3 : str) :
  Shape s w1 d w2 c l1 l2 w3 ->
  exists m', Run POSTCODE_RE (start None s) m' /\ group1 m' = d.
Proof.
  intros (-> & Hw1 & (L & D & O & -> & HL & HL1 & HD & HD1 & HO & HO1)
          & Hw2 & Hc & Hl1 & Hl2 & Hw3).
  eexists. split.
  - unfold POSTCODE_RE.
    apply Run_bol; [reflexivity | ].
    eapply (Run_rep _ _ _ _ _ _ w1); [reflexivity | exact Hw1 | lia | exact I | ].
    apply Run_open. state_simpl.
    eapply (Run_rep _ _ _ _ _ _ L);
      [state_simpl; now rewrite <- !app_assoc | exact HL | lia | lia | ].
    eapply (Run_rep _ _ _ _ _ _ D); [reflexivity | exact HD | lia | lia | ].
    eapply (Run_rep _ _ _ _ _ _ O); [reflexivity | exact HO | lia | lia | ].
    apply Run_close. state_simpl.
    eapply (Run_rep _ _ _ _ _ _ w2); [reflexivity | exact Hw2 | lia | exact I | ].
    eapply (Run_rep _ _ _ _ _ _ [c] (l1 :: l2 :: w3));
      [reflexivity | simpl; now rewrite Hc | simpl; lia | simpl; lia | ].
    eapply (Run_rep _ _ _ _ _ _ [l1; l2] w3);
      [reflexivity | simpl; now rewrite Hl1, Hl2 | simpl; lia | simpl; lia | ].
    eapply (Run_rep _ _ _ _ _ _ w3 []);
      [state_simpl; now rewrite app_nil_r | exact Hw3 | lia | exact I | ].
    apply Run_eol; [reflexivity | ]. apply Run_nil.
  - unfold group1. state_simpl.
    now rewrite app_nil_r, !rev_app_distr, !rev_involutive, <- !app_assoc.
Qed.


(** ** Prefixes of one class *)

Lemma drop_while_app (p : ascii -> bool) (a r : str) :
  forallb p a = true -> stops p r -> drop_while p (a ++ r) = r.
Proof.
  intros Ha Hr. induction a as [ | x a IH]; simpl.
  - destruct r as [ | y r]; [reflexivity | ]. simpl in *. now rewrite Hr.
  - simpl in Ha. apply andb_true_iff in Ha as [Hx Ha]. rewrite Hx. auto.
Qed.

Lemma take_while_app_stop (p : ascii -> bool) (a r : str) :
  forallb p a = true -> stops p r -> take_while p (a ++ r) = a.
Proof.
  intros Ha Hr. induction a as [ | x a IH]; simpl.
  - destruct r as [ | y r]; [reflexivity | ]. simpl in *. now rewrite Hr.
  - simpl in Ha. apply andb_true_iff in Ha as [Hx Ha]. rewrite Hx.
    now rewrite IH.
Qed.

Lemma forallb_rev_true (p : ascii -> bool) (a : str) :
  forallb p a = true -> forallb p (rev a) = true.
Proof.
  rewrite !forallb_forall. intros H x Hx. apply H. now apply in_rev.
Qed.

Lemma forallb_weaken (p q : ascii -> bool) (a : str) :
  (forall x, p x = true -> q x = true) ->
  forallb p a = true -> forallb q a = true.
Proof. rewrite !forallb_forall. auto. Qed.

Lemma letter_not_space (x : ascii) : is_letter x = true -> not_space x = true.
Proof. intros H. unfold not_space. now rewrite (proj1 (proj2 (letter_is_word x H))). Qed.

Lemma digit_not_space (x : ascii) : is_digit x = true -> not_space x = true.
Proof. intros H. unfold not_space. now rewrite (proj1 (proj2 (digit_is_word x H))). Qed.

Lemma letter_word (x : ascii) : is_letter x = true -> is_word x = true.
Proof. intros H. apply (letter_is_word x H). Qed.

Lemma digit_word (x : ascii) : is_digit x = true -> is_word x = true.
Proof. intros H. apply (digit_is_word x H). Qed.

(** An outward code starts with a letter, and is made of word
    characters. *)
Lemma outward_chars (d : str) :
  Outward d ->
  (exists x d', d = x :: d' /\ is_letter x = true /\ forallb is_word d' = true)
  /\ forallb not_space d = true /\ forallb is_word d = true.
Proof.
  intros (L & D & O & -> & HL & HL1 & HD & HD1 & HO & HO1).
  assert (Hw : forallb is_word (L ++ D ++ O) = true).
  { rewrite !forallb_app.
    rewrite (forallb_weaken _ _ _ letter_word HL).
    rewrite (forallb_weaken _ _ _ digit_word HD).
    now rewrite (forallb_weaken _ _ _ letter_word HO). }
  split; [ | split; [ | exact Hw]].
  - destruct L as [ | x L]; [simpl in HL1; lia | ].
    exists x, (L ++ D ++ O). simpl in HL, Hw.
    apply andb_true_iff in HL as [Hx _]. apply andb_true_iff in Hw as [_ Hw].
    auto.
  - rewrite !forallb_app.
    rewrite (forallb_weaken _ _ _ letter_not_space HL).
    rewrite (forallb_weaken _ _ _ digit_not_space HD).
    now rewrite (forallb_weaken _ _ _ letter_not_space HO).
Qed.

Lemma rev_head_not_space (d : str) :
  d <> [] -> forallb not_space d = true -> stops is_space (rev d).
Proof.
  intros Hne Hd. apply forallb_rev_true in Hd.
  destruct (rev d) as [ | x r] eqn:E.
  - apply (f_equal (@rev ascii)) in E. rewrite rev_involutive in E.
    simpl in E. contradiction.
  - simpl in *. apply andb_true_iff in Hd as [Hx _].
    unfold not_space in Hx. now apply negb_true_iff in Hx.
Qed.

Lemma stops_app (p : ascii -> bool) (a r : str) :
  a <> [] -> stops p a -> stops p (a ++ r).
Proof. destruct a; simpl; [contradiction | auto]. Qed.

Lemma rev_nonempty (d : str) : d <> [] -> rev d <> [].
Proof.
  intros Hne E. apply Hne. apply (f_equal (@rev ascii)) in E.
  now rewrite rev_involutive in E.
Qed.

Lemma shape_rev (s w1 d w2 : str) (c l1 l2 : ascii) (w3 : str) :
  s = w1 ++ d ++ w2 ++ c :: l1 :: l2 :: w3 ->
  rev s = rev w3 ++ l2 :: l1 :: c :: rev w2 ++ rev d ++ rev w1.
Proof.
  intros ->. rewrite !rev_app_distr. simpl.
  now rewrite <- !app_assoc.
Qed.

Lemma spaces_stop_not_space (w : str) :
  forallb is_space w = true -> stops not_space w.
Proof.
  destruct w as [ | x w]; simpl; [auto | ].
  intros H. apply andb_true_iff in H as [Hx _].
  unfold not_space. now rewrite Hx.
Qed.

(** The outward code of a text of the shape of a postcode is the one that
    [outward_of] reads: there is one way only to read the text. *)
Lemma shape_outward_of (s w1 d w2 : str) (c l1 l2 : ascii) (w3 : str) :
  Shape s w1 d w2 c l1 l2 w3 -> outward_of s = d.
Proof.
  intros (Hs & Hw1 & Hd & Hw2 & Hc & Hl1 & Hl2 & Hw3).
  destruct (outward_chars d Hd) as ((x & d' & Hx & _) & Hns & _).
  unfold outward_of. rewrite (shape_rev _ _ _ _ _ _ _ _ Hs).
  rewrite (drop_while_app is_space (rev w3));
    [ | now apply forallb_rev_true
      | simpl; apply (letter_is_word l2 Hl2) ].
  change (skipn 3 (l2 :: l1 :: c :: rev w2 ++ rev d ++ rev w1))
    with (rev w2 ++ rev d ++ rev w1).
  assert (Hne : d <> []) by (rewrite Hx; discriminate).
  rewrite (drop_while_app is_space (rev w2));
    [ | now apply forallb_rev_true
      | apply stops_app;
        [now apply rev_nonempty | now apply rev_head_not_space] ].
  rewrite (take_while_app_stop not_space (rev d));
    [apply rev_involutive | now apply forallb_rev_true
     | apply spaces_stop_not_space; now apply forallb_rev_true].
Qed.

(** The postcode pattern matches exactly the texts of the shape of a
    postcode, and its group is their outward code. *)
Lemma postcode_match_shape (s : str) (m : mstate) :
  re_match POSTCODE_RE s = Some m ->
  exists w1 w2 c l1 l2 w3, Shape s w1 (group1 m) w2 c l1 l2 w3.
Proof. intros H. now apply run_postcode_shape, exec_sound. Qed.

Lemma shape_postcode_match (s w1 d w2 : str) (c l1 l2 : ascii) (w3 : str) :
  Shape s w1 d w2 c l1 l2 w3 ->
  exists m, re_match POSTCODE_RE s = Some m /\ group1 m = d.
Proof.
  intros H. destruct (shape_run_postcode _ _ _ _ _ _ _ _ H) as (m' & Hrun & _).
  apply exec_complete in Hrun. unfold re_match.
  destruct (exec POSTCODE_RE (start None s)) as [m | ] eqn:E; [ | congruence].
  exists m. split; [reflexivity | ].
  destruct (postcode_match_shape s m E) as (a1 & a2 & b & b1 & b2 & a3 & H').
  apply shape_outward_of in H, H'. congruence.
Qed.

(** ** Normalisation *)

Lemma strip_shape (s w1 d w2 : str) (c l1 l2 : ascii) (w3 : str) :
  Shape s w1 d w2 c l1 l2 w3 ->
  strip s = d ++ w2 ++ [c; l1; l2].
Proof.
  intros (Hs & Hw1 & Hd & Hw2 & Hc & Hl1 & Hl2 & Hw3).
  destruct (outward_chars d Hd) as ((x & d' & Hx & Hlx & _) & _ & _).
  unfold strip.
  assert (E : drop_while is_space s = d ++ w2 ++ c :: l1 :: l2 :: w3).
  { rewrite Hs. apply drop_while_app; [exact Hw1 | ].
    rewrite Hx. simpl. apply (letter_is_word x Hlx). }
  rewrite E.
  rewrite (shape_rev (d ++ w2 ++ c :: l1 :: l2 :: w3) [] d w2 c l1 l2 w3 eq_refl).
  rewrite (drop_while_app is_space (rev w3));
    [ | now apply forallb_rev_true
      | simpl; apply (letter_is_word l2 Hl2) ].
  simpl. rewrite app_nil_r, rev_app_distr, !rev_involutive.
  now rewrite <- !app_assoc.
Qed.

Lemma upper_spaces (w : str) : forallb is_space w = true -> upper w = w.
Proof.
  unfold upper. induction w as [ | x w IH]; simpl; [reflexivity | ].
  intros H. apply andb_true_iff in H as [Hx Hw].
  rewrite (IH Hw). f_equal. apply (space_not_word x Hx).
Qed.

Lemma upper_letters (L : str) :
  forallb is_letter L = true -> forallb is_letter (upper L) = true.
Proof.
  unfold upper. induction L as [ | x L IH]; simpl; [reflexivity | ].
  intros H. apply andb_true_iff in H as [Hx HL].
  rewrite (IH HL), andb_true_r. apply (letter_is_word x Hx).
Qed.

Lemma upper_digits (D : str) : forallb is_digit D = true -> upper D = D.
Proof.
  unfold upper. induction D as [ | x D IH]; simpl; [reflexivity | ].
  intros H. apply andb_true_iff in H as [Hx HD].
  rewrite (IH HD). f_equal. apply (digit_is_word x Hx).
Qed.

Lemma upper_outward (d : str) : Outward d -> Outward (upper d).
Proof.
  intros (L & D & O & -> & HL & HL1 & HD & HD1 & HO & HO1).
  exists (upper L), D, (upper O). unfold upper in *.
  rewrite !map_app, !length_map. fold (upper D).
  rewrite (upper_digits D HD).
  repeat split; auto; try lia; now apply upper_letters.
Qed.

(** *** Replacing two spaces by one *)

Lemma replace_2sp_other (a : ascii) (r : str) :
  is_sp a = false -> replace_2sp (a :: r) = a :: replace_2sp r.
Proof. intros H. destruct r; simpl; now rewrite ?H. Qed.

Lemma replace_2sp_prefix (d r : str) :
  forallb (fun x => negb (is_sp x)) d = true ->
  replace_2sp (d ++ r) = d ++ replace_2sp r.
Proof.
  induction d as [ | x d IH]; [reflexivity | ].
  intros H. cbn [forallb] in H. apply andb_true_iff in H as [Hx Hd].
  apply negb_true_iff in Hx.
  change ((x :: d) ++ r) with (x :: d ++ r).
  rewrite replace_2sp_other by exact Hx. now rewrite IH.
Qed.

Lemma replace_2sp_cons2 (a b : ascii) (r : str) :
  replace_2sp (a :: b :: r) =
  if is_sp a && is_sp b then space :: replace_2sp r
  else a :: replace_2sp (b :: r).
Proof. reflexivity. Qed.

Lemma replace_2sp_before (w : str) (c : ascii) (r : str) :
  is_sp c = false ->
  replace_2sp (w ++ c :: r) = replace_2sp w ++ replace_2sp (c :: r).
Proof.
  intros Hc.
  assert (H : forall (k : nat) (w : str), (length w <= k)%nat ->
            replace_2sp (w ++ c :: r) = replace_2sp w ++ replace_2sp (c :: r)).
  { induction k as [ | k IH]; intros u Hlen.
    - destruct u; [reflexivity | simpl in Hlen; lia].
    - destruct u as [ | a u]; [reflexivity | ].
      destruct u as [ | b u].
      + change (replace_2sp (a :: c :: r) = a :: replace_2sp (c :: r)).
        rewrite replace_2sp_cons2. now rewrite Hc, andb_false_r.
      + simpl in Hlen.
        change (replace_2sp (a :: b :: (u ++ c :: r))
                = replace_2sp (a :: b :: u) ++ replace_2sp (c :: r)).
        rewrite !replace_2sp_cons2.
        destruct (is_sp a && is_sp b).
        * rewrite (IH u) by lia. reflexivity.
        * change (b :: u ++ c :: r) with ((b :: u) ++ c :: r).
          rewrite (IH (b :: u)) by (simpl; lia). reflexivity. }
  apply (H (length w)). lia.
Qed.

Lemma replace_2sp_In (w : str) (x : ascii) :
  In x (replace_2sp w) -> In x w.
Proof.
  assert (H : forall (k : nat) (w : str), (length w <= k)%nat ->
            In x (replace_2sp w) -> In x w).
  { induction k as [ | k IH]; intros u Hlen.
    - destruct u; [auto | simpl in Hlen; lia].
    - destruct u as [ | a u]; [auto | ].
      destruct u as [ | b u]; [auto | ].
      simpl in Hlen. rewrite replace_2sp_cons2.
      destruct (is_sp a && is_sp b) eqn:E.
      + apply andb_true_iff in E as [Ea _].
        apply sp_is_space in Ea as [-> _].
        intros [<- | Hin]; [now left | ].
        right; right. apply (IH u); [lia | exact Hin].
      + intros [<- | Hin]; [now left | ].
        right. apply (IH (b :: u)); [simpl; lia | exact Hin]. }
  apply (H (length w)). lia.
Qed.

Lemma replace_2sp_spaces (w : str) :
  forallb is_space w = true -> forallb is_space (replace_2sp w) = true.
Proof.
  rewrite !forallb_forall. intros H x Hx. now apply H, replace_2sp_In.
Qed.

Lemma replace_2sp_nil (w : str) : replace_2sp w = [] <-> w = [].
Proof.
  split; [ | now intros ->].
  destruct w as [ | a [ | b w]]; [auto | discriminate | ].
  rewrite replace_2sp_cons2. destruct (is_sp a && is_sp b); discriminate.
Qed.

Lemma not_sp_of_not_space (d : str) :
  forallb not_space d = true ->
  forallb (fun x => negb (is_sp x)) d = true.
Proof.
  apply forallb_weaken. intros x Hx. unfold not_space in Hx.
  destruct (is_sp x) eqn:E; [ | reflexivity].
  apply sp_is_space in E as [_ E]. now rewrite E in Hx.
Qed.

(** Normalising a text of the shape of a postcode leaves the shape: the
    outer white space goes, the letters become capitals and the inner white
    space, if there is any, is still white space and not empty. *)
Lemma normalize_shape (s w1 d w2 : str) (c l1 l2 : ascii) (w3 : str) :
  Shape s w1 d w2 c l1 l2 w3 ->
  Shape (normalize s) [] (upper d) (replace_2sp w2) c
        (upper_char l1) (upper_char l2) [].
Proof.
  intros H. pose proof H as (Hs & Hw1 & Hd & Hw2 & Hc & Hl1 & Hl2 & Hw3).
  pose proof (upper_outward d Hd) as Hud.
  destruct (outward_chars _ Hud) as (_ & Hns & _).
  unfold normalize. rewrite (strip_shape _ _ _ _ _ _ _ _ H).
  unfold Shape. repeat split; auto.
  - unfold upper. rewrite !map_app. fold (upper d) (upper w2).
    rewrite (upper_spaces w2 Hw2).
    cbn [map]. rewrite (proj2 (proj2 (proj2 (proj2 (digit_is_word c Hc))))).
    rewrite replace_2sp_prefix by now apply not_sp_of_not_space.
    cbn [app]. f_equal.
    rewrite replace_2sp_before by apply (digit_is_word c Hc).
    f_equal.
    rewrite !replace_2sp_other; try reflexivity.
    + apply (letter_is_word _ (proj1 (proj2 (proj2 (proj2 (proj2 (letter_is_word l2 Hl2))))))).
    + apply (letter_is_word _ (proj1 (proj2 (proj2 (proj2 (proj2 (letter_is_word l1 Hl1))))))).
    + apply (digit_is_word c Hc).
  - now apply replace_2sp_spaces.
  - apply (letter_is_word l1 Hl1).
  - apply (letter_is_word l2 Hl2).
Qed.

(** ** The inward pattern *)

Lemma search_from_cons (p : list node) (b : option ascii) (x : ascii)
      (r : str) :
  exec p (start b (x :: r)) = None ->
  search_from p b (x :: r) = search_from p (Some x) r.
Proof. intros H. simpl. now rewrite H. Qed.

Lemma search_from_nil (p : list node) (b : option ascii) :
  exec p (start b []) = None -> search_from p b [] = None.
Proof. intros H. simpl. now rewrite H. Qed.

Lemma search_from_here (p : list node) (b : option ascii) (s : str)
      (m : mstate) :
  exec p (start b s) = Some m -> search_from p b s = Some m.
Proof. intros H. destruct s; simpl; now rewrite H. Qed.

Lemma inward_fails_non_digit (b : option ascii) (x : ascii) (r : str) :
  is_digit x = false -> exec INWARD_RE (start b (x :: r)) = None.
Proof.
  intros H. unfold INWARD_RE. cbn [exec].
  destruct (at_boundary (start b (x :: r))); [ | reflexivity].
  unfold most, start. cbn [rest prev take_while]. rewrite H. reflexivity.
Qed.

Lemma inward_fails_end (b : option ascii) :
  exec INWARD_RE (start b []) = None.
Proof.
  unfold INWARD_RE. cbn [exec].
  now destruct (at_boundary (start b [])).
Qed.

Lemma inward_fails_inside (b : option ascii) (x : ascii) (r : str) :
  word_opt b = true -> is_word x = true ->
  exec INWARD_RE (start b (x :: r)) = None.
Proof.
  intros Hb Hx. unfold INWARD_RE. cbn [exec].
  unfold at_boundary. cbn [start prev rest head].
  cbn [word_opt]. now rewrite Hb, Hx.
Qed.

Lemma digit_false_of (p : ascii -> bool) (a : str) :
  (forall x, p x = true -> is_digit x = false) ->
  forallb p a = true -> forallb (fun x => negb (is_digit x)) a = true.
Proof.
  intros Hp. apply forallb_weaken. intros x Hx. now rewrite (Hp x Hx).
Qed.

(** The search passes over characters that are not digits. *)
Lemma search_skip_non_digits (a : str) (b : option ascii) (r : str) :
  forallb (fun x => negb (is_digit x)) a = true ->
  search_from INWARD_RE b (a ++ r) = search_from INWARD_RE (after a b) r.
Proof.
  revert b. induction a as [ | x a IH]; intros b H; [reflexivity | ].
  cbn [forallb] in H. apply andb_true_iff in H as [Hx Ha].
  apply negb_true_iff in Hx.
  change ((x :: a) ++ r) with (x :: a ++ r).
  rewrite search_from_cons by now apply inward_fails_non_digit.
  now rewrite IH.
Qed.

(** The search passes over word characters that follow a word
    character. *)
Lemma search_skip_inside (a : str) (b : option ascii) (r : str) :
  word_opt b = true -> forallb is_word a = true ->
  search_from INWARD_RE b (a ++ r) = search_from INWARD_RE (after a b) r
  /\ word_opt (after a b) = true.
Proof.
  revert b. induction a as [ | x a IH]; intros b Hb H; [now split | ].
  cbn [forallb] in H. apply andb_true_iff in H as [Hx Ha].
  change ((x :: a) ++ r) with (x :: a ++ r).
  rewrite search_from_cons by now apply inward_fails_inside.
  apply (IH (Some x)); auto.
Qed.

Lemma after_last (p : ascii -> bool) (a : str) (b : option ascii) :
  a <> [] -> forallb p a = true ->
  exists z, after a b = Some z /\ p z = true.
Proof.
  revert b. induction a as [ | x a IH]; intros b Hne H; [contradiction | ].
  cbn [forallb] in H. apply andb_true_iff in H as [Hx Ha].
  destruct a as [ | y a].
  - exists x. split; [reflexivity | exact Hx].
  - apply (IH (Some x)); [discriminate | exact Ha].
Qed.

Lemma run_inward_group (b : option ascii) (s : str) (m : mstate) :
  Run INWARD_RE (start b s) m -> exists c r, s = c :: r /\ group1 m = [c].
Proof.
  unfold INWARD_RE. intros H.
  apply Run_wordb_inv in H as [_ H].
  apply Run_open_inv in H. state_simpl.
  apply Run_rep_inv in H as (C & v1 & E1 & _ & HC1 & HC2 & H). state_simpl.
  apply Run_close_inv in H. state_simpl.
  apply Run_rep_inv in H as (I & v2 & E2 & _ & _ & _ & H). state_simpl.
  apply Run_wordb_inv in H as [_ H].
  apply Run_nil_inv in H. subst m.
  destruct (length_one C HC1 HC2) as (c & ->).
  exists c, v1. split; [exact E1 | reflexivity].
Qed.

(** The inward pattern matches at a digit after a character that is not a
    word character, when two capitals and then white space or the end
    follow. *)
Lemma inward_matches (z c l1 l2 : ascii) (w3 : str) :
  is_word z = false -> is_digit c = true ->
  is_upper l1 = true -> is_upper l2 = true ->
  forallb is_space w3 = true ->
  exists m, exec INWARD_RE (start (Some z) (c :: l1 :: l2 :: w3)) = Some m
            /\ group1 m = [c].
Proof.
  intros Hz Hc Hl1 Hl2 Hw3.
  assert (Hl2w : is_word l2 = true).
  { apply letter_word. unfold is_letter. now rewrite Hl2. }
  assert (Hrun : exists m, Run INWARD_RE (start (Some z) (c :: l1 :: l2 :: w3)) m).
  { eexists. unfold INWARD_RE.
    apply Run_wordb.
    { unfold at_boundary. cbn. now rewrite Hz, (digit_word c Hc). }
    apply Run_open. state_simpl.
    eapply (Run_rep _ _ _ _ _ _ [c] (l1 :: l2 :: w3));
      [reflexivity | simpl; now rewrite Hc | simpl; lia | simpl; lia | ].
    apply Run_close. state_simpl.
    eapply (Run_rep _ _ _ _ _ _ [l1; l2] w3);
      [reflexivity | simpl; now rewrite Hl1, Hl2 | simpl; lia | simpl; lia | ].
    apply Run_wordb; [ | apply Run_nil].
    unfold at_boundary. cbn. rewrite Hl2w.
    destruct w3 as [ | y w3]; [reflexivity | ].
    cbn in *. apply andb_true_iff in Hw3 as [Hy _].
    now rewrite (proj1 (space_not_word y Hy)). }
  destruct Hrun as (m0 & Hrun). apply exec_complete in Hrun.
  destruct (exec INWARD_RE _) as [m | ] eqn:E; [ | congruence].
  exists m. split; [reflexivity | ].
  apply exec_sound, run_inward_group in E as (c' & r & [= <- _] & Hg).
  exact Hg.
Qed.

(** In a text of the shape of a postcode with its inward letters in
    capitals, the inward pattern is found exactly when white space
    separates the two codes, and its group is then the inward digit. *)
Lemma inward_search_shape (s w1 d w2 : str) (c l1 l2 : ascii) (w3 : str) :
  Shape s w1 d w2 c l1 l2 w3 ->
  is_upper l1 = true -> is_upper l2 = true ->
  (w2 = [] -> re_search INWARD_RE s = None) /\
  (w2 <> [] ->
   exists m, re_search INWARD_RE s = Some m /\ group1 m = [c]).
Proof.
  intros (Hs & Hw1 & Hd & Hw2 & Hc & Hl1 & Hl2 & Hw3) Hu1 Hu2.
  destruct (outward_chars d Hd) as ((x & d' & Hx & Hlx & Hd') & _ & _).
  assert (Hsp : forall a, forallb is_space a = true ->
                forallb (fun x => negb (is_digit x)) a = true).
  { intros a. apply digit_false_of. intros y Hy. apply (space_not_word y Hy). }
  assert (Hle : forall a, forallb is_letter a = true ->
                forallb (fun x => negb (is_digit x)) a = true).
  { intros a. apply digit_false_of. intros y Hy. apply (letter_is_word y Hy). }
  unfold re_search. rewrite Hs, Hx.
  rewrite (search_skip_non_digits w1) by now apply Hsp.
  change ((x :: d') ++ w2 ++ c :: l1 :: l2 :: w3)
    with (x :: d' ++ w2 ++ c :: l1 :: l2 :: w3).
  rewrite search_from_cons
    by (apply inward_fails_non_digit, (letter_is_word x Hlx)).
  destruct (search_skip_inside d' (Some x) (w2 ++ c :: l1 :: l2 :: w3)
              (letter_word x Hlx) Hd') as [-> Hb].
  split.
  - intros ->. cbn [app].
    rewrite search_from_cons
      by (apply inward_fails_inside; [exact Hb | now apply digit_word]).
    rewrite <- (app_nil_r (l1 :: l2 :: w3)).
    rewrite (search_skip_non_digits (l1 :: l2 :: w3)).
    + apply search_from_nil, inward_fails_end.
    + cbn [forallb].
      rewrite (proj1 (proj2 (proj2 (letter_is_word l1 Hl1)))).
      rewrite (proj1 (proj2 (proj2 (letter_is_word l2 Hl2)))).
      now apply Hsp.
  - intros Hne.
    rewrite (search_skip_non_digits w2) by now apply Hsp.
    destruct (after_last is_space w2 (after d' (Some x)) Hne Hw2)
      as (z & -> & Hz).
    destruct (inward_matches z c l1 l2 w3 (proj1 (space_not_word z Hz))
                Hc Hu1 Hu2 Hw3) as (m & Hm & Hg).
    exists m. split; [ | exact Hg].
    now apply search_from_here.
Qed.

(** ** Sector derivation *)

Lemma normalize_upper_fixed (s : str) (x : ascii) :
  In x (normalize s) -> upper_char x = x.
Proof.
  unfold normalize, upper. intros H.
  apply replace_2sp_In, in_map_iff in H as (y & <- & _).
  apply upper_char_twice.
Qed.

Lemma upper_fixed (d : str) :
  (forall x, In x d -> upper_char x = x) -> upper d = d.
Proof.
  intros H. unfold upper. rewrite <- (map_id d) at 2.
  apply map_ext_in. exact H.
Qed.

(** What [parse_district] accepts: the normalised text has the shape of a
    postcode in capitals, and the district is its outward code. *)
Lemma parse_district_shape (s d : str) :
  parse_district s = Some d ->
  exists w1 w2 c l1 l2 w3,
    Shape (normalize s) w1 d w2 c l1 l2 w3 /\ upper d = d /\
    is_upper l1 = true /\ is_upper l2 = true.
Proof.
  unfold parse_district.
  destruct (re_match POSTCODE_RE (normalize s)) as [m | ] eqn:E;
    [ | discriminate].
  intros [= <-].
  destruct (postcode_match_shape _ _ E) as (w1 & w2 & c & l1 & l2 & w3 & H).
  exists w1, w2, c, l1, l2, w3.
  pose proof H as (Hs & _ & _ & _ & _ & Hl1 & Hl2 & _).
  assert (Hin : forall x, In x (w1 ++ group1 m ++ w2 ++ c :: l1 :: l2 :: w3) ->
                          upper_char x = x).
  { rewrite <- Hs. apply normalize_upper_fixed. }
  split; [exact H | ]. split; [ | split].
  - apply upper_fixed. intros x Hx. apply Hin.
    rewrite !in_app_iff. tauto.
  - apply (upper_letter l1 Hl1), Hin.
    rewrite !in_app_iff. simpl. tauto.
  - apply (upper_letter l2 Hl2), Hin.
    rewrite !in_app_iff. simpl. tauto.
Qed.

Lemma shape_parse_district (s w1 d w2 : str) (c l1 l2 : ascii) (w3 : str) :
  Shape s w1 d w2 c l1 l2 w3 -> parse_district s = Some (upper d).
Proof.
  intros H. apply normalize_shape, shape_postcode_match in H as (m & Hm & Hg).
  unfold parse_district. now rewrite Hm, Hg.
Qed.

(** Normalising the text beforehand does not change the district. *)
Lemma parse_district_normalize (s d : str) :
  parse_district s = Some d -> parse_district (normalize s) = Some d.
Proof.
  intros H.
  destruct (parse_district_shape s d H)
    as (w1 & w2 & c & l1 & l2 & w3 & Hsh & Hd & _).
  rewrite (shape_parse_district _ _ _ _ _ _ _ _ Hsh). now rewrite Hd.
Qed.

(** Nor does it change the sector. *)
Lemma derive_sector_normalize (s d district : str) :
  parse_district s = Some d ->
  derive_sector_from_postcode (normalize s) district
  = derive_sector_from_postcode s district.
Proof.
  intros H.
  destruct (parse_district_shape s d H)
    as (w1 & w2 & c & l1 & l2 & w3 & Hsh & Hd & Hu1 & Hu2).
  pose proof (normalize_shape _ _ _ _ _ _ _ _ Hsh) as Hsh'.
  assert (Hu1' : is_upper (upper_char l1) = true).
  { apply (letter_is_word l1). unfold is_letter. now rewrite Hu1. }
  assert (Hu2' : is_upper (upper_char l2) = true).
  { apply (letter_is_word l2). unfold is_letter. now rewrite Hu2. }
  destruct (inward_search_shape _ _ _ _ _ _ _ _ Hsh Hu1 Hu2) as [Hn Hs].
  destruct (inward_search_shape _ _ _ _ _ _ _ _ Hsh' Hu1' Hu2') as [Hn' Hs'].
  unfold derive_sector_from_postcode.
  destruct w2 as [ | y w2].
  - rewrite (Hn eq_refl), (Hn' eq_refl). reflexivity.
  - destruct (Hs ltac:(discriminate)) as (m & -> & Hg).
    destruct Hs' as (m' & -> & Hg').
    { intros E. apply (proj1 (replace_2sp_nil _)) in E. discriminate. }
    now rewrite Hg, Hg'.
Qed.

(** C9: for a text that has the accepted shape, whether the pattern is
    tried on the text as it is or on the text normalised, the district and
    the sector are the same when the text is passed as it is, normalised
    once or normalised twice. *)
Theorem derivation_normalize_idempotent (s : str) :
  re_match POSTCODE_RE s <> None \/ parse_district s <> None ->
  exists district,
    parse_district s = Some district /\
    parse_district (normalize s) = Some district /\
    parse_district (normalize (normalize s)) = Some district /\
    derive_sector_from_postcode (normalize s) district
      = derive_sector_from_postcode s district /\
    derive_sector_from_postcode (normalize (normalize s)) district
      = derive_sector_from_postcode s district.
Proof.
  intros H.
  assert (Hd : exists d, parse_district s = Some d).
  { destruct H as [H | H].
    - destruct (re_match POSTCODE_RE s) as [m | ] eqn:E; [ | congruence].
      destruct (postcode_match_shape _ _ E)
        as (w1 & w2 & c & l1 & l2 & w3 & Hsh).
      eexists. exact (shape_parse_district _ _ _ _ _ _ _ _ Hsh).
    - destruct (parse_district s) as [d | ]; [eauto | congruence]. }
  destruct Hd as (d & Hd). exists d.
  pose proof (parse_district_normalize s d Hd) as Hd1.
  pose proof (parse_district_normalize _ d Hd1) as Hd2.
  repeat split; auto.
  - exact (derive_sector_normalize s d d Hd).
  - rewrite (derive_sector_normalize (normalize s) d d Hd1).
    exact (derive_sector_normalize s d d Hd).
Qed.

(** [derivation_normalize_idempotent] on a text in small letters with
    white space around it and four spaces inside. *)
Lemma derivation_normalize_idempotent_witness :
  exists district,
    parse_district (txt "  e14    9az ") = Some district /\
    parse_district (normalize (txt "  e14    9az ")) = Some district /\
    parse_district (normalize (normalize (txt "  e14    9az ")))
      = Some district /\
    derive_sector_from_postcode (normalize (txt "  e14    9az ")) district
      = derive_sector_from_postcode (txt "  e14    9az ") district /\
    derive_sector_from_postcode
      (normalize (normalize (txt "  e14    9az "))) district
      = derive_sector_from_postcode (txt "  e14    9az ") district.
Proof.
  apply (derivation_normalize_idempotent (txt "  e14    9az ")).
  left. vm_compute. discriminate.
Defined.

(** ** The errors of [search] *)

Lemma parse_district_not_empty (s d : str) :
  parse_district s = Some d -> is_empty d = false.
Proof.
  intros H.
  destruct (parse_district_shape s d H)
    as (w1 & w2 & c & l1 & l2 & w3 & (_ & _ & Ho & _) & _).
  destruct (outward_chars d Ho) as ((x & d' & -> & _) & _). reflexivity.
Qed.

Lemma derive_sector_not_empty (s d sector : str) :
  derive_sector_from_postcode s d = Some sector -> is_empty sector = false.
Proof.
  unfold derive_sector_from_postcode.
  destruct (re_search INWARD_RE (normalize s)); [ | discriminate].
  intros [= <-]. now destruct d.
Qed.

(** C7: a query that is empty once the white space around it is removed
    gives EmptyInput; otherwise a query that the postcode pattern rejects
    gives InvalidFormat; otherwise a query in which no digit followed by
    two capitals stands between word boundaries gives
    SectorDerivationFailed; otherwise there is a result.  The last failure
    does occur: "E149AZ" has the shape of a postcode and no sector. *)
Theorem search_errors (df : list Row) (postcode : option str) :
  (query_text postcode = [] -> search df postcode = inl EmptyInput) /\
  (query_text postcode <> [] ->
   parse_district (query_text postcode) = None ->
   search df postcode = inl InvalidFormat) /\
  (query_text postcode <> [] ->
   forall district,
     parse_district (query_text postcode) = Some district ->
     derive_sector_from_postcode (query_text postcode) district = None ->
     search df postcode = inl SectorDerivationFailed) /\
  (query_text postcode <> [] ->
   forall district sector,
     parse_district (query_text postcode) = Some district ->
     derive_sector_from_postcode (query_text postcode) district
       = Some sector ->
     exists res, search df postcode = inr res /\
                 res_district res = district /\ res_sector res = sector) /\
  (re_match POSTCODE_RE (txt "E149AZ") <> None /\
   parse_district (txt "E149AZ") = Some (txt "E14") /\
   derive_sector_from_postcode (txt "E149AZ") (txt "E14") = None /\
   search df (Some (txt "E149AZ")) = inl SectorDerivationFailed) /\
  search df (Some (txt "ZZZZ")) = inl InvalidFormat /\
  search df (Some (txt "   ")) = inl EmptyInput /\
  search df None = inl EmptyInput.
Proof.
  unfold search. fold (query_text postcode).
  split; [now intros -> | ].
  split.
  { intros Hne Hp. destruct (query_text postcode); [congruence | ].
    cbn [is_empty]. now rewrite Hp. }
  split.
  { intros Hne d Hp Hs. destruct (query_text postcode) eqn:E; [congruence | ].
    cbn [is_empty]. rewrite Hp, (parse_district_not_empty _ _ Hp).
    now rewrite Hs. }
  split.
  { intros Hne d sec Hp Hs.
    destruct (query_text postcode) eqn:E; [congruence | ].
    cbn [is_empty]. rewrite Hp, (parse_district_not_empty _ _ Hp).
    rewrite Hs, (derive_sector_not_empty _ _ _ Hs).
    eexists. split; [reflexivity | split; reflexivity]. }
  repeat split; try (vm_compute; reflexivity).
  vm_compute. discriminate.
Qed.

(** [search_errors] on the query " E149AZ ": not empty, accepted by the
    postcode pattern, and without a sector. *)
Lemma search_errors_witness :
  query_text (Some (txt " E149AZ ")) <> [] /\
  parse_district (query_text (Some (txt " E149AZ "))) = Some (txt "E14") /\
  search [] (Some (txt " E149AZ ")) = inl SectorDerivationFailed.
Proof.
  destruct (search_errors [] (Some (txt " E149AZ "))) as (_ & _ & H & _).
  split; [vm_compute; discriminate | ].
  split; [vm_compute; reflexivity | ].
  apply (H ltac:(vm_compute; discriminate) (txt "E14")).
  - vm_compute. reflexivity.
  - vm_compute. reflexivity.
Defined.

(** ** The examples of the specification *)

Example sector_of_E14_9AZ :
  parse_district (txt "E14 9AZ") = Some (txt "E14") /\
  derive_sector_from_postcode (txt "E14 9AZ") (txt "E14")
    = Some (txt "E14 9").
Proof. split; vm_compute; reflexivity. Qed.

Example sector_of_small_letters :
  parse_district (txt "  e14   9az ") = Some (txt "E14") /\
  derive_sector_from_postcode (txt "  e14   9az ") (txt "E14")
    = Some (txt "E14 9").
Proof. split; vm_compute; reflexivity. Qed.

Example ZZZZ_is_rejected : parse_district (txt "ZZZZ") = None.
Proof. vm_compute. reflexivity. Qed.

Example median_of_four :
  safe_median [100; 200; 300; 400]%float = Some 250%float.
Proof. vm_compute. reflexivity. Qed.

Example median_skips_nan :
  safe_median [nan; 3; 1; 2]%float = Some 2%float /\
  safe_count [nan; 3; 1; 2]%float = 3.
Proof. split; vm_compute; reflexivity. Qed.

Example trend_of_sample_file :
  compute_trend_by_year (load sample_file) = [mk_point 2021 1200 1].
Proof. vm_compute. reflexivity. Qed.

(** * Further properties *)

(** ** White space around a text *)

Lemma drop_while_stops (p : ascii -> bool) (s : str) :
  stops p (drop_while p s).
Proof.
  induction s as [ | x s IH]; simpl; [exact I | ].
  destruct (p x) eqn:E; [exact IH | exact E].
Qed.

Lemma drop_while_fixed (p : ascii -> bool) (s : str) :
  stops p s -> drop_while p s = s.
Proof. destruct s as [ | x s]; simpl; [reflexivity | now intros ->]. Qed.

Lemma drop_while_all (p : ascii -> bool) (a r : str) :
  forallb p a = true -> drop_while p (a ++ r) = drop_while p r.
Proof.
  induction a as [ | x a IH]; simpl; [reflexivity | ].
  intros H. apply andb_true_iff in H as [-> Ha]. auto.
Qed.

Lemma drop_while_snoc (p : ascii -> bool) (a r : str) :
  r <> [] -> stops p r ->
  exists a', drop_while p (a ++ r) = a' ++ r.
Proof.
  intros Hne Hr. induction a as [ | x a IH]; simpl.
  - exists []. now apply drop_while_fixed.
  - destruct (p x); [exact IH | ]. now exists (x :: a).
Qed.

Lemma strip_fixed (t : str) :
  stops is_space t -> stops is_space (rev t) -> strip t = t.
Proof.
  intros H1 H2. unfold strip.
  rewrite (drop_while_fixed _ _ H1), (drop_while_fixed _ _ H2).
  apply rev_involutive.
Qed.

(** The stripped text neither starts nor ends with white space. *)
Lemma strip_stops (s : str) :
  stops is_space (strip s) /\ stops is_space (rev (strip s)).
Proof.
  unfold strip. rewrite rev_involutive. split; [ | apply drop_while_stops].
  pose proof (drop_while_stops is_space s) as Hu.
  destruct (drop_while is_space s) as [ | x u]; [exact I | ].
  simpl in Hu. cbn [rev].
  destruct (drop_while_snoc is_space (rev u) [x]) as (a' & ->);
    [discriminate | exact Hu | ].
  rewrite rev_app_distr. exact Hu.
Qed.

Lemma strip_strip (s : str) : strip (strip s) = strip s.
Proof. apply strip_fixed; apply strip_stops. Qed.

Lemma drop_while_map (p : ascii -> bool) (f : ascii -> ascii) (s : str) :
  (forall c, p (f c) = p c) ->
  drop_while p (map f s) = map f (drop_while p s).
Proof.
  intros H. induction s as [ | x s IH]; simpl; [reflexivity | ].
  rewrite H. now destruct (p x).
Qed.

Lemma upper_char_space (c : ascii) : is_space (upper_char c) = is_space c.
Proof. each_char c. Qed.

Lemma strip_upper (s : str) : strip (upper s) = upper (strip s).
Proof.
  unfold strip, upper.
  rewrite (drop_while_map _ _ _ upper_char_space), <- map_rev.
  rewrite (drop_while_map _ _ _ upper_char_space). now rewrite map_rev.
Qed.

Lemma upper_upper (s : str) : upper (upper s) = upper s.
Proof.
  unfold upper. rewrite map_map. apply map_ext. apply upper_char_twice.
Qed.

Lemma strip_pad (w1 s w2 : str) :
  forallb is_space w1 = true -> forallb is_space w2 = true ->
  strip (w1 ++ s ++ w2) = strip s.
Proof.
  intros H1 H2. unfold strip. rewrite (drop_while_all _ _ _ H1).
  assert (H : forall u, rev (drop_while is_space (rev (u ++ w2)))
                        = rev (drop_while is_space (rev u))).
  { intros u. rewrite rev_app_distr.
    now rewrite (drop_while_all _ _ _ (forallb_rev_true _ _ H2)). }
  destruct (drop_while is_space s) as [ | x u] eqn:E.
  - (* nothing but white space *)
    assert (Hs : forallb is_space s = true).
    { clear - E. induction s as [ | y s IH]; simpl in *; [reflexivity | ].
      destruct (is_space y); [auto | discriminate]. }
    rewrite (drop_while_all _ _ _ Hs).
    assert (Hw : drop_while is_space w2 = []).
    { rewrite <- (app_nil_r w2). now apply drop_while_app. }
    rewrite Hw. reflexivity.
  - assert (Hd : drop_while is_space (s ++ w2) = (x :: u) ++ w2).
    { clear - E. induction s as [ | y s IH]; simpl in *; [discriminate | ].
      destruct (is_space y); [auto | ]. now injection E as -> ->. }
    rewrite Hd. apply H.
Qed.

Lemma normalize_query_upper (s : str) :
  normalize (strip (upper s)) = normalize (strip s).
Proof.
  unfold normalize.
  now rewrite !strip_strip, strip_upper, upper_upper.
Qed.

Lemma parse_district_via_normalize (pc pc' : str) :
  normalize pc = normalize pc' -> parse_district pc = parse_district pc'.
Proof. unfold parse_district. now intros ->. Qed.

Lemma derive_sector_via_normalize (pc pc' d : str) :
  normalize pc = normalize pc' ->
  derive_sector_from_postcode pc d = derive_sector_from_postcode pc' d.
Proof. unfold derive_sector_from_postcode. now intros ->. Qed.

(** The answer of [search] is read off the normalised text. *)
Lemma search_via_normalize (df : list Row) (p p' : option str) :
  normalize (query_text p) = normalize (query_text p') ->
  is_empty (query_text p) = is_empty (query_text p') ->
  forget_postcode (search df p) = forget_postcode (search df p').
Proof.
  intros Hn He. unfold search.
  fold (query_text p) (query_text p'). rewrite He.
  rewrite (parse_district_via_normalize _ _ Hn).
  destruct (is_empty (query_text p')); [reflexivity | ].
  destruct (parse_district (query_text p')) as [d | ]; [ | reflexivity].
  rewrite (derive_sector_via_normalize _ _ d Hn).
  destruct (is_empty d); [reflexivity | ].
  destruct (derive_sector_from_postcode (query_text p') d) as [sec | ];
    [ | reflexivity].
  destruct (is_empty sec); reflexivity.
Qed.

(** X1: the answer to a query does not depend on the case of its letters:
    the query in capitals gets the same error, or the same district,
    sector, statistics, verdict, forecast and trends; and white space
    around the query changes nothing at all. *)
Theorem search_case_and_padding (df : list Row) (s w1 w2 : str) :
  forget_postcode (search df (Some (upper s)))
    = forget_postcode (search df (Some s)) /\
  (forallb is_space w1 = true -> forallb is_space w2 = true ->
   search df (Some (w1 ++ s ++ w2)) = search df (Some s)).
Proof.
  split.
  - apply search_via_normalize; unfold query_text.
    + apply normalize_query_upper.
    + rewrite strip_upper. unfold upper. now destruct (strip s).
  - intros H1 H2. unfold search. now rewrite (strip_pad _ _ _ H1 H2).
Qed.

Lemma search_case_and_padding_witness :
  search (load sample_file) (Some (txt "  E14 9AZ "))
    = search (load sample_file) (Some (txt "E14 9AZ")).
Proof.
  apply (search_case_and_padding (load sample_file)
           (txt "E14 9AZ") (txt "  ") (txt " "));
    reflexivity.
Defined.

(** ** The district and the sector key *)

Lemma sp_space (x : ascii) : is_space x = false -> is_sp x = false.
Proof.
  intros H. destruct (is_sp x) eqn:E; [ | reflexivity].
  apply sp_is_space in E as [_ E]. congruence.
Qed.

Lemma replace_2sp_stops (t : str) :
  stops is_space t -> stops is_space (replace_2sp t).
Proof.
  destruct t as [ | x r]; [auto | ]. intros H.
  change (is_space x = false) in H.
  rewrite replace_2sp_other by now apply sp_space. exact H.
Qed.

Lemma replace_2sp_stops_rev (t : str) :
  stops is_space (rev t) -> stops is_space (rev (replace_2sp t)).
Proof.
  destruct (rev t) as [ | x r] eqn:E.
  - apply (f_equal (@rev ascii)) in E. rewrite rev_involutive in E.
    subst t. auto.
  - apply (f_equal (@rev ascii)) in E. rewrite rev_involutive in E.
    subst t. intros H. change (is_space x = false) in H. cbn [rev].
    rewrite replace_2sp_before by now apply sp_space.
    rewrite rev_app_distr. exact H.
Qed.

Lemma upper_stops (t : str) :
  stops is_space t -> stops is_space (upper t).
Proof.
  destruct t as [ | x r]; [auto | ]. simpl. now rewrite upper_char_space.
Qed.

(** The normalised text neither starts nor ends with white space. *)
Lemma normalize_stops (s : str) :
  stops is_space (normalize s) /\ stops is_space (rev (normalize s)).
Proof.
  unfold normalize. destruct (strip_stops s) as [H1 H2]. split.
  - now apply replace_2sp_stops, upper_stops.
  - apply replace_2sp_stops_rev. unfold upper. rewrite <- map_rev.
    now apply upper_stops.
Qed.

Lemma shape_tight (t w1 d w2 : str) (c l1 l2 : ascii) (w3 : str) :
  Shape t w1 d w2 c l1 l2 w3 ->
  stops is_space t -> stops is_space (rev t) -> w1 = [] /\ w3 = [].
Proof.
  intros (Ht & Hw1 & _ & _ & _ & _ & _ & Hw3) H1 H2.
  rewrite (shape_rev _ _ _ _ _ _ _ _ Ht) in H2. rewrite Ht in H1. split.
  - destruct w1 as [ | y w1]; [reflexivity | ]. simpl in *.
    apply andb_true_iff in Hw1 as [Hy _]. congruence.
  - destruct w3 as [ | y w3]; [reflexivity | ].
    apply forallb_rev_true in Hw3.
    destruct (rev (y :: w3)) as [ | z r] eqn:E.
    + apply (f_equal (@length ascii)) in E. rewrite length_rev in E.
      discriminate.
    + simpl in *. apply andb_true_iff in Hw3 as [Hz _]. congruence.
Qed.

(** What the two derivations read in a text that [parse_district]
    accepts. *)
Lemma accepted_text (s d : str) :
  parse_district s = Some d ->
  exists w2 c l1 l2,
    normalize s = d ++ w2 ++ [c; l1; l2] /\
    Outward d /\ upper d = d /\ forallb is_space w2 = true /\
    is_digit c = true /\ is_upper l1 = true /\ is_upper l2 = true /\
    forall district,
      derive_sector_from_postcode s district =
      match w2 with
      | [] => None
      | _ => Some (district ++ [space; c])
      end.
Proof.
  intros H.
  destruct (parse_district_shape s d H)
    as (w1 & w2 & c & l1 & l2 & w3 & Hsh & Hd & Hu1 & Hu2).
  destruct (normalize_stops s) as [H1 H2].
  destruct (shape_tight _ _ _ _ _ _ _ _ Hsh H1 H2) as [-> ->].
  pose proof Hsh as (Hs & _ & Ho & Hw2 & Hc & _).
  exists w2, c, l1, l2. repeat split; auto.
  intros district.
  destruct (inward_search_shape _ _ _ _ _ _ _ _ Hsh Hu1 Hu2) as [Hn Hf].
  unfold derive_sector_from_postcode.
  destruct w2 as [ | y w2].
  - now rewrite (Hn eq_refl).
  - destruct (Hf ltac:(discriminate)) as (m & -> & ->). reflexivity.
Qed.









(** X4: a sector key that is derived is in the form the sector column is
    compared in: capitals, no white space around it, two characters longer
    than the district; so a row stored under the key is in the slice of the
    sector, and so is a row stored under any text that normalises to it. *)
Theorem sector_key_normal_form (s d sector : str) :
  parse_district s = Some d ->
  derive_sector_from_postcode s d = Some sector ->
  upper (strip sector) = sector /\
  length sector = (length d + 2)%nat /\
  (forall r, Sector (csv r) = Some sector -> in_sector sector r = true) /\
  (forall r w1 w2,
     forallb is_space w1 = true -> forallb is_space w2 = true ->
     Sector (csv r) = Some (w1 ++ sector ++ w2) ->
     in_sector sector r = true).
Proof.
  intros Hp Hs.
  destruct (accepted_text s d Hp)
    as (w2 & c & l1 & l2 & _ & Ho & Hu & _ & Hc & _ & _ & Hder).
  rewrite Hder in Hs.
  destruct w2 as [ | y w2]; [discriminate | ]. injection Hs as <-.
  destruct (outward_chars d Ho) as ((x & d' & Hx & Hlx & _) & _ & _).
  assert (Hstrip : strip (d ++ [space; c]) = d ++ [space; c]).
  { apply strip_fixed.
    - rewrite Hx. simpl. apply (letter_is_word x Hlx).
    - rewrite rev_app_distr. simpl. apply (digit_is_word c Hc). }
  assert (Hnf : upper (strip (d ++ [space; c])) = d ++ [space; c]).
  { rewrite Hstrip. unfold upper in *. rewrite map_app, Hu. simpl.
    now rewrite (proj2 (proj2 (proj2 (proj2 (digit_is_word c Hc))))). }
  split; [exact Hnf | ]. split; [rewrite length_app; reflexivity | ].
  split.
  - intros r Hr. unfold in_sector. rewrite Hr. simpl astype_str.
    rewrite Hnf. now apply bool_decide_eq_true.
  - intros r w1 w3 H1 H3 Hr. unfold in_sector. rewrite Hr.
    simpl astype_str. rewrite (strip_pad _ _ _ H1 H3), Hnf.
    now apply bool_decide_eq_true.
Qed.

Lemma sector_key_normal_form_witness :
  upper (strip (txt "E14 9")) = txt "E14 9".
Proof.
  apply (sector_key_normal_form (txt "e14 9az") (txt "E14") (txt "E14 9"));
    vm_compute; reflexivity.
Defined.

(** ** Subsets of a frame *)

Lemma verified_filter_comm (p : Row -> bool) (g : list Row) :
  apply_verified_filter (List.filter p g)
  = List.filter p (apply_verified_filter g).
Proof.
  unfold apply_verified_filter.
  induction g as [ | r g IH]; simpl; [reflexivity | ].
  destruct (p r) eqn:E1, (verified r) eqn:E2; simpl;
    rewrite ?E1, ?E2, IH; reflexivity.
Qed.


Lemma safe_count_filter_le (col : Row -> float) (p : Row -> bool)
      (g : list Row) :
  (safe_count (map col (List.filter p g)) <= safe_count (map col g))%nat.
Proof.
  unfold safe_count, dropna.
  induction g as [ | r g IH]; simpl; [lia | ].
  destruct (p r); simpl; destruct (negb (PrimFloat.is_nan (col r)));
    simpl; lia.
Qed.

Lemma safe_count_le_length (s : list float) : (safe_count s <= length s)%nat.
Proof. unfold safe_count, dropna. apply List.filter_length_le. Qed.

Lemma safe_median_count (s : list float) :
  safe_median s = None <-> safe_count s = 0%nat.
Proof. now rewrite safe_median_none, safe_count_zero. Qed.

(** The count of a subset is at most the count of the frame, which is at
    most the number of its rows. *)
Lemma count_subset (p : Row -> bool) (g : list Row) :
  (n (compute_stats (List.filter p g)) <= n (compute_stats g))%nat /\
  (n (compute_stats g) <= length g)%nat.
Proof.
  unfold compute_stats. cbn [n]. split.
  - rewrite verified_filter_comm. apply safe_count_filter_le.
  - etransitivity; [apply safe_count_le_length | ].
    rewrite length_map. apply List.filter_length_le.
Qed.

(** What a successful [search] returns. *)
Lemma search_result (df : list Row) (postcode : option str) (res : Result) :
  search df postcode = inr res ->
  parse_district (query_text postcode) = Some (res_district res) /\
  derive_sector_from_postcode (query_text postcode) (res_district res)
    = Some (res_sector res) /\
  res_postcode res = query_text postcode /\
  res_sector_stats res
    = compute_stats (List.filter (in_sector (res_sector res)) df) /\
  res_london_stats res = compute_stats df /\
  res_verdict res = verdict (median_year (res_sector_stats res))
                            (median_year (res_london_stats res)) /\
  res_year5 res
    = forecast_year_value (median_year (res_sector_stats res)) FORECAST_YEARS /\
  res_forecast_rows res = forecast_rows (median_year (res_sector_stats res)) /\
  res_trend res
    = add_yoy (compute_trend_by_year
                 (List.filter (in_sector (res_sector res)) df)) /\
  res_bench res
    = bench (compute_trend_by_year df)
            (compute_trend_by_year
               (List.filter (in_sector (res_sector res)) df)).
Proof.
  unfold search. fold (query_text postcode).
  destruct (is_empty (query_text postcode)); [discriminate | ].
  destruct (parse_district (query_text postcode)) as [d | ] eqn:Ed;
    [ | discriminate].
  destruct (is_empty d); [discriminate | ].
  destruct (derive_sector_from_postcode (query_text postcode) d)
    as [sec | ] eqn:Es; [ | discriminate].
  destruct (is_empty sec); [discriminate | ].
  intros [= <-].
  cbn [res_postcode res_district res_sector res_sector_stats
       res_london_stats res_verdict res_year5 res_forecast_rows res_trend
       res_bench].
  repeat split; auto.
Qed.

(** X5: in an answer the count of the sector is at most the count of
    London, which is at most the number of rows of the dataset. *)
Theorem sector_count_bounded (df : list Row) (postcode : option str)
        (res : Result) :
  search df postcode = inr res ->
  (n (res_sector_stats res) <= n (res_london_stats res))%nat /\
  (n (res_london_stats res) <= length df)%nat.
Proof.
  intros H. apply search_result in H.
  destruct H as (_ & _ & _ & -> & -> & _). apply count_subset.
Qed.

Lemma sector_count_bounded_witness :
  exists res,
    search (load sample_file) (Some (txt "E14 9AZ")) = inr res /\
    (n (res_sector_stats res) <= n (res_london_stats res))%nat /\
    (n (res_london_stats res) <= length (load sample_file))%nat.
Proof.
  eexists. split; [vm_compute; reflexivity | ].
  apply (sector_count_bounded (load sample_file) (Some (txt "E14 9AZ"))).
  vm_compute. reflexivity.
Defined.

(** ** Counts along the trend *)

Lemma trend_point_of (g : list Row) (p : TrendPoint) :
  In p (compute_trend_by_year g) ->
  point_of (apply_verified_filter g) (tp_year p) = Some p.
Proof.
  rewrite compute_trend_by_year_unfold. intros H.
  apply list_elem_of_In, list_elem_of_omap in H as (y & _ & Hy).
  now rewrite (point_of_year _ _ _ Hy).
Qed.

Lemma trend_point_count (g : list Row) (p : TrendPoint) :
  In p (compute_trend_by_year g) ->
  tp_n p = safe_count (map annual (year_group g (tp_year p))) /\
  (1 <= tp_n p)%nat /\ (tp_n p <= n (compute_stats g))%nat.
Proof.
  intros H. apply trend_point_of in H. unfold point_of in H.
  fold (year_group g (tp_year p)) in H.
  destruct (safe_median (map annual (year_group g (tp_year p)))) as [m | ]
    eqn:E; [ | discriminate].
  assert (Hn : tp_n p = safe_count (map annual (year_group g (tp_year p)))).
  { now injection H as <-. }
  split; [exact Hn | ]. rewrite Hn. split.
  - destruct (safe_count (map annual (year_group g (tp_year p)))) eqn:Ec;
      [ | lia].
    apply safe_median_count in Ec. congruence.
  - unfold year_group, compute_stats. cbn [n]. apply safe_count_filter_le.
Qed.

Lemma trend_counts_all (g : list Row) :
  Forall (fun p => (1 <= tp_n p <= n (compute_stats g))%nat)
         (compute_trend_by_year g).
Proof.
  apply List.Forall_forall. intros p Hp.
  apply trend_point_count in Hp. lia.
Qed.

Lemma trend_nil_of_count (g : list Row) :
  n (compute_stats g) = 0%nat -> compute_trend_by_year g = [].
Proof.
  intros H0. pose proof (trend_counts_all g) as H.
  destruct (compute_trend_by_year g) as [ | p t]; [reflexivity | ].
  apply List.Forall_inv in H. lia.
Qed.

(** X6: every point of a trend counts at least one amount and at most as
    many as the statistics of the same subset count; so a subset whose
    count is 0 has an empty trend. *)
Theorem trend_counts (g : list Row) :
  Forall (fun p => (1 <= tp_n p <= n (compute_stats g))%nat)
         (compute_trend_by_year g) /\
  (n (compute_stats g) = 0%nat -> compute_trend_by_year g = []).
Proof.
  split.
  - apply List.Forall_forall. intros p Hp.
    destruct (trend_point_count g p Hp) as (_ & Hlo & Hhi). lia.
  - intros H0.
    destruct (compute_trend_by_year g) as [ | p t] eqn:E; [reflexivity | ].
    assert (Hp : In p (compute_trend_by_year g)) by (rewrite E; now left).
    destruct (trend_point_count g p Hp) as (_ & Hlo & Hhi). lia.
Qed.

Lemma forecast_rows_nil (b : option float) :
  forecast_rows b = [] <-> b = None.
Proof.
  destruct b as [b | ]; [ | now split].
  unfold forecast_rows. rewrite fold_left_append. split; discriminate.
Qed.

Lemma verdict_na (s l : option float) :
  verdict s l = NA <-> s = None \/ l = None.
Proof.
  destruct s as [s | ], l as [l | ]; simpl.
  - destruct (s <=? l * LOW_BAND)%float;
      [ | destruct (s <=? l * HIGH_BAND)%float];
      split; try discriminate; intros [H | H]; discriminate.
  - split; auto.
  - split; auto.
  - split; auto.
Qed.

Lemma median_year_count (g : list Row) :
  median_year (compute_stats g) = None <-> n (compute_stats g) = 0%nat.
Proof. unfold compute_stats. cbn [median_year n]. apply safe_median_count. Qed.

(** X7: an answer has the verdict N/A exactly when the count of the sector
    is 0, and exactly then it has no forecast, neither rows nor headline;
    its sector trend is then empty as well. *)
Theorem no_data_no_verdict (df : list Row) (postcode : option str)
        (res : Result) :
  search df postcode = inr res ->
  (res_verdict res = NA <-> n (res_sector_stats res) = 0%nat) /\
  (res_forecast_rows res = [] <-> n (res_sector_stats res) = 0%nat) /\
  (res_year5 res = None <-> n (res_sector_stats res) = 0%nat) /\
  (n (res_sector_stats res) = 0%nat -> res_trend res = []).
Proof.
  intros H. apply search_result in H.
  destruct H as (_ & _ & _ & Hs & Hl & -> & -> & -> & -> & _).
  rewrite Hs, Hl.
  set (g := List.filter (in_sector (res_sector res)) df).
  pose proof (median_year_count g) as Hg.
  pose proof (median_year_count df) as Hdf.
  destruct (count_subset (in_sector (res_sector res)) df) as [Hle _].
  fold g in Hle.
  split; [ | split; [ | split]].
  - rewrite verdict_na, <- Hg. split; [ | auto].
    intros [H | H]; [exact H | ]. apply Hg. apply Hdf in H. lia.
  - now rewrite forecast_rows_nil.
  - rewrite <- Hg. destruct (median_year (compute_stats g)); simpl;
      split; congruence.
  - intros H0. now rewrite (trend_nil_of_count g H0).
Qed.

Lemma no_data_no_verdict_witness :
  exists res,
    search [] (Some (txt "E14 9AZ")) = inr res /\
    (res_verdict res = NA <-> n (res_sector_stats res) = 0%nat).
Proof.
  eexists. split; [vm_compute; reflexivity | ].
  apply (no_data_no_verdict [] (Some (txt "E14 9AZ"))).
  vm_compute. reflexivity.
Defined.

(** ** Unverified rows *)







(** ** The London series *)










(** ** The forecast table and its headline *)

(** X10: every row of the forecast table holds the value that
    [forecast_year_value] gives for its year, so the headline, the value
    for the last year, is the value of the last row; without a base there
    is neither a row nor a headline. *)
Theorem forecast_table_headline (base_yearly : option float) :
  (forall i, (i < FORECAST_YEARS)%nat ->
     nth_error (forecast_rows base_yearly) i
     = option_map (fun v => (S i, v))
                  (forecast_year_value base_yearly (S i))) /\
  option_map snd (nth_error (forecast_rows base_yearly) (FORECAST_YEARS - 1))
    = forecast_year_value base_yearly FORECAST_YEARS /\
  length (forecast_rows base_yearly)
    = match base_yearly with Some _ => FORECAST_YEARS | None => 0%nat end.
Proof.
  destruct base_yearly as [b | ].
  - unfold forecast_rows. rewrite fold_left_append. cbn [app].
    split; [ | split; reflexivity].
    intros i Hi. unfold FORECAST_YEARS in *.
    do 5 (destruct i as [ | i]; [reflexivity | ]). lia.
  - split; [ | split; reflexivity].
    intros i _. now destruct i.
Qed.

(** ** The median *)







(** ** The columns of the file *)

Lemma isin_In (x : str) (l : list str) : isin x l = true <-> In x l.
Proof.
  unfold isin. rewrite existsb_exists. split.
  - intros (v & Hv & E). apply bool_decide_eq_true in E. now subst.
  - intros H. exists x. split; [exact H | now apply bool_decide_eq_true].
Qed.

Lemma missing_In (columns : list str) (c : str) :
  In c (missing columns) <-> In c required_cols /\ ~ In c columns.
Proof.
  unfold missing. rewrite filter_In, negb_true_iff.
  rewrite <- (isin_In c columns).
  destruct (isin c columns); split; intros [H1 H2]; split; auto;
    try discriminate.
  now contradiction H2.
Qed.

Lemma NoDup_list_filter {A : Type} (f : A -> bool) (l : list A) :
  NoDup l -> NoDup (List.filter f l).
Proof.
  induction 1 as [ | x l Hx _ IH]; simpl; [constructor | ].
  destruct (f x); [ | exact IH]. constructor; [ | exact IH].
  intros Hin. apply Hx. apply list_elem_of_In in Hin.
  apply filter_In in Hin as [Hin _]. now apply list_elem_of_In.
Qed.

Lemma required_cols_NoDup : NoDup required_cols.
Proof. apply (bool_decide_unpack (NoDup required_cols)). vm_compute. exact I. Qed.

(** X12: the check of the columns passes exactly when each of the nine
    required columns is among the headers of the file; when it fails, the
    error names the headers and the required columns that are not among
    them, each once and in the order of the required columns; the order of
    the headers, repeated headers and further headers play no part. *)
Theorem check_columns_spec (columns : list str) :
  (check_columns columns = None <->
   forall c, In c required_cols -> In c columns) /\
  (forall e, check_columns columns = Some e ->
     err_headers e = columns /\ err_missing e <> [] /\
     err_missing e = List.filter (fun c => negb (isin c columns)) required_cols /\
     NoDup (err_missing e) /\
     forall c, In c (err_missing e) <-> In c required_cols /\ ~ In c columns) /\
  (forall columns',
     (forall c, In c required_cols -> (In c columns <-> In c columns')) ->
     option_map err_missing (check_columns columns')
     = option_map err_missing (check_columns columns)) /\
  length required_cols = 9%nat.
Proof.
  split; [ | split; [ | split; [ | reflexivity]]].
  - unfold check_columns. split.
    + intros H c Hc.
      destruct (isin c columns) eqn:E; [now apply isin_In | ].
      assert (Hm : In c (missing columns)).
      { apply missing_In. split; [exact Hc | ].
        intros Hin. apply isin_In in Hin. congruence. }
      destruct (missing columns); [contradiction | discriminate].
    + intros H. destruct (missing columns) as [ | c m] eqn:E; [reflexivity | ].
      assert (Hm : In c (missing columns)) by (rewrite E; now left).
      apply missing_In in Hm as [Hc Hout]. now apply H in Hc.
  - intros e. unfold check_columns.
    destruct (missing columns) as [ | c m] eqn:E; [discriminate | ].
    intros [= <-]. cbn [err_headers err_missing]. rewrite <- E.
    split; [reflexivity | ]. split; [rewrite E; discriminate | ].
    split; [reflexivity | ]. split.
    + unfold missing. apply NoDup_list_filter, required_cols_NoDup.
    + intros c'. apply missing_In.
  - intros columns' H.
    assert (Hm : missing columns' = missing columns).
    { unfold missing. apply filter_ext_in. intros c Hc. f_equal.
      apply eq_true_iff_eq. rewrite !isin_In. symmetry. now apply H. }
    unfold check_columns. rewrite Hm. now destruct (missing columns).
Qed.

(** ** Validation and data *)

(** X13: whether a query is answered or refused, and why, does not depend
    on the dataset, and neither do the district and the sector of an
    answer. *)
Theorem validation_without_data (df df' : list Row) (postcode : option str) :
  (forall e, search df postcode = inl e <-> search df' postcode = inl e) /\
  (forall res, search df postcode = inr res ->
     exists res', search df' postcode = inr res' /\
                  res_postcode res' = res_postcode res /\
                  res_district res' = res_district res /\
                  res_sector res' = res_sector res).
Proof.
  unfold search.
  destruct (is_empty _); [split; [tauto | discriminate] | ].
  destruct (parse_district _) as [d | ]; [ | split; [tauto | discriminate]].
  destruct (is_empty d); [split; [tauto | discriminate] | ].
  destruct (derive_sector_from_postcode _ d) as [sec | ];
    [ | split; [tauto | discriminate]].
  destruct (is_empty sec); [split; [tauto | discriminate] | ].
  split; [split; discriminate | ].
  intros res [= <-]. eexists. split; [reflexivity | ].
  repeat split.
Qed.

(** ** The two charts *)











(** ** The normalised text *)




